(** * Document decomposition into study doses (src/App.tsx)

    A shallow embedding of the extraction helpers of [src/App.tsx]:
    [parseStructuredText], [extractTextFromDocx] and [extractTextFromPdf],
    with the properties of their heading stacks, block finalisation and
    fallbacks.

    Conventions of the embedding.
    - A JavaScript string is the list of its UTF-16 code units ([N]).
    - A JavaScript array is a list in array order; [push] appends at the end
      and [pop] removes the last element.
    - Page coordinates and glyph heights are JavaScript numbers; they are
      modelled as rationals ([Q]), i.e. finite numbers without rounding
      error.  Counts, lengths and heading levels are natural numbers. *)

From Stdlib Require Import String Ascii DecimalString.
From Stdlib Require Import List Sorted Bool Arith ZArith NArith.
From Stdlib Require Import QArith Qround Lia.
Import ListNotations.

Set Implicit Arguments.
Close Scope Q_scope.
Open Scope nat_scope.

(* ================================================================== *)
(** ** JavaScript strings and the regular expressions of the source    *)
(* ================================================================== *)

Module JS.

Definition char := N.
Definition jsstring := list char.

(** An ASCII literal as a JavaScript string. *)
Definition str (s : string) : jsstring :=
  map N_of_ascii (list_ascii_of_string s).

Definition LF : char := 10%N.
Definition lf : jsstring := [LF].

Definition char_eqb (a b : char) : bool := N.eqb a b.
Arguments char_eqb (a b)%_N.

Fixpoint jsstring_eqb (a b : jsstring) : bool :=
  match a, b with
  | [], [] => true
  | x :: a', y :: b' => char_eqb x y && jsstring_eqb a' b'
  | _, _ => false
  end.

(** [\s] of a regular expression and the characters removed by
    [String.prototype.trim]: WhiteSpace and LineTerminator of ECMAScript. *)
Definition isWhiteSpace (c : char) : bool :=
  ((9 <=? c) && (c <=? 13) || (c =? 32) || (c =? 160) || (c =? 5760)
   || (8192 <=? c) && (c <=? 8202) || (c =? 8232) || (c =? 8233)
   || (c =? 8239) || (c =? 8287) || (c =? 12288) || (c =? 65279))%N.

(** [\d] and [\w]. *)
Definition isDigit (c : char) : bool := ((48 <=? c) && (c <=? 57))%N.
Definition isWord (c : char) : bool :=
  ((65 <=? c) && (c <=? 90) || (97 <=? c) && (c <=? 122)
   || isDigit c || (c =? 95))%N.

Fixpoint takeWhile (p : char -> bool) (s : jsstring) : jsstring :=
  match s with
  | c :: r => if p c then c :: takeWhile p r else []
  | [] => []
  end.

Fixpoint dropWhile (p : char -> bool) (s : jsstring) : jsstring :=
  match s with
  | c :: r => if p c then dropWhile p r else s
  | [] => []
  end.

Definition trimStart (s : jsstring) : jsstring := dropWhile isWhiteSpace s.
Definition trimEnd (s : jsstring) : jsstring :=
  rev (dropWhile isWhiteSpace (rev s)).
(** [s.trim()] *)
Definition trim (s : jsstring) : jsstring := trimEnd (trimStart s).

(** A string used as a condition: the empty string is falsy. *)
Definition truthy (s : jsstring) : bool :=
  match s with [] => false | _ => true end.

(** [a.join(sep)] *)
Fixpoint join (sep : jsstring) (l : list jsstring) : jsstring :=
  match l with
  | [] => []
  | [x] => x
  | x :: xs => x ++ sep ++ join sep xs
  end.

(** [s.split('\n')] *)
Fixpoint splitLF (s : jsstring) : list jsstring :=
  match s with
  | [] => [[]]
  | c :: r =>
      if char_eqb c LF then [] :: splitLF r
      else match splitLF r with
           | [] => [[c]]
           | l :: ls => (c :: l) :: ls
           end
  end.

(** [s.split('\n\n')]: the separator is looked for from left to right,
    occurrences do not overlap. *)
Fixpoint splitLFLF_aux (cur : jsstring) (s : jsstring) : list jsstring :=
  match s with
  | [] => [rev cur]
  | c :: r =>
      match r with
      | d :: r' =>
          if char_eqb c LF && char_eqb d LF
          then rev cur :: splitLFLF_aux [] r'
          else splitLFLF_aux (c :: cur) r
      | [] => [rev (c :: cur)]
      end
  end.
Definition splitLFLF (s : jsstring) : list jsstring := splitLFLF_aux [] s.

(** Number of characters up to and including the last line feed of [ws]. *)
Fixpoint lastLF (ws : jsstring) : option nat :=
  match ws with
  | [] => None
  | c :: r =>
      match lastLF r with
      | Some n => Some (S n)
      | None => if char_eqb c LF then Some 1 else None
      end
  end.

(** Length of the match of [/\n\s*\n/] at the head of [s], if there is one:
    a line feed, then the longest run of white space that still ends in a
    line feed ([\s*] is greedy and backtracks to the last line feed). *)
Definition matchBlank (s : jsstring) : option nat :=
  match s with
  | c :: r =>
      if char_eqb c LF
      then match lastLF (takeWhile isWhiteSpace r) with
           | Some n => Some (S n)
           | None => None
           end
      else None
  | [] => None
  end.

(** [s.split(/\n\s*\n/)].  [skip] counts the characters of the current
    match that are still to be consumed. *)
Fixpoint splitBlank_aux (skip : nat) (cur : jsstring) (s : jsstring)
  : list jsstring :=
  match s with
  | [] => [rev cur]
  | c :: r =>
      match skip with
      | S k => splitBlank_aux k cur r
      | O =>
          match matchBlank s with
          | Some n => rev cur :: splitBlank_aux (n - 1) [] r
          | None => splitBlank_aux 0 (c :: cur) r
          end
      end
  end.
Definition splitBlank (s : jsstring) : list jsstring := splitBlank_aux 0 [] s.

Definition startsWithWS (s : jsstring) : bool :=
  match s with c :: _ => isWhiteSpace c | [] => false end.

(** The class [[•●▪•*-]]. *)
Definition isBullet (c : char) : bool :=
  ((c =? 8226) || (c =? 9679) || (c =? 9642) || (c =? 42) || (c =? 45))%N.

(** [/^\s*([•●▪•*-]|\d+\.|\w\))\s/.test(s)].  None of the three
    alternatives starts with white space, and a digit is not a full stop,
    so the greedy choices of [\s*] and [\d+] are the only ones that can
    match. *)
Definition listItemHead (s : jsstring) : bool :=
  match s with
  | c :: r =>
      isBullet c && startsWithWS r
      || isDigit c
         && match dropWhile isDigit r with
            | d :: r' => char_eqb d 46 && startsWithWS r'
            | [] => false
            end
      || isWord c
         && match r with
            | p :: r' => char_eqb p 41 && startsWithWS r'
            | [] => false
            end
  | [] => false
  end.
Definition isListItem (s : jsstring) : bool :=
  listItemHead (dropWhile isWhiteSpace s).

(** [s.endsWith('-')] and [s.slice(0, -1)]. *)
Definition endsWithHyphen (s : jsstring) : bool :=
  match rev s with c :: _ => char_eqb c 45 | [] => false end.
Definition dropLast (s : jsstring) : jsstring := removelast s.

(** Decimal rendering of a number in a template literal. *)
Definition decimal (n : nat) : jsstring :=
  str (NilEmpty.string_of_uint (Nat.to_uint n)).

End JS.
Import JS.

(* ================================================================== *)
(** ** The heading stack of the level-numbered pipelines               *)
(* ================================================================== *)

(** The loop [while (a.length > 0 && cond(a[a.length - 1])) a.pop();] on an
    array used as a stack.  [fuel] bounds the number of iterations: after
    [fuel] of them the array is returned as it is, so that [popWhile cond k]
    for [k = 0, 1, ...] are the successive states of the loop, and the length
    of the array is always enough fuel to run it to its end. *)
Fixpoint popWhile {A : Type} (cond : A -> bool) (fuel : nat) (a : list A)
  : list A :=
  match fuel with
  | O => a
  | S f =>
      match rev a with
      | top :: _ => if cond top then popWhile cond f (removelast a) else a
      | [] => a
      end
  end.

(** [{ level: number, text: string }] *)
Record Heading := { level : nat; htext : jsstring }.

(** [headingPath.map(h => h.text).join(' > ')] *)
Definition breadcrumbOf (headingPath : list Heading) : jsstring :=
  join (str " > ") (map htext headingPath).

(** The loop
    [while (headingPath.length > 0 &&
            headingPath[headingPath.length - 1].level >= level)
       headingPath.pop();] *)
Definition popLevels (fuel : nat) (lvl : nat) (headingPath : list Heading)
  : list Heading :=
  popWhile (fun top => lvl <=? level top) fuel headingPath.

(** The pop loop followed by [headingPath.push({ level, text })]. *)
Definition pushHeading (lvl : nat) (txt : jsstring)
  (headingPath : list Heading) : list Heading :=
  popLevels (length headingPath) lvl headingPath
    ++ [{| level := lvl; htext := txt |}].

(* ================================================================== *)
(** ** parseStructuredText                                             *)
(* ================================================================== *)

Module Structured.

(** [line.match(/^\s*/)?.[0].length ?? 0] *)
Definition getIndentation (line : jsstring) : nat :=
  length (takeWhile isWhiteSpace line).

Record LineData := { text : jsstring; indent : nat }.

Definition mkLineData (line : jsstring) : LineData :=
  {| text := line; indent := getIndentation line |}.

(** [Math.min(...l)] of a non-empty list. *)
Fixpoint minimum (x : nat) (l : list nat) : nat :=
  match l with
  | [] => x
  | y :: l' => Nat.min x (minimum y l')
  end.

(** [lineData.map((line, i) => line.indent === first ? i : -1)
             .filter(index => index !== -1)], counting from [i]. *)
Fixpoint branchStartsFrom (i : nat) (first : nat) (lineData : list LineData)
  : list nat :=
  match lineData with
  | [] => []
  | l :: r =>
      if indent l =? first then i :: branchStartsFrom (S i) first r
      else branchStartsFrom (S i) first r
  end.

(** The loop [for (j = branchStartIndex - 1; j >= 0; j--)] over the lines
    before the branch, nearest first. *)
Fixpoint collectAncestors (before : list LineData) (currentIndent : nat)
  (ancestors : list jsstring) : list jsstring :=
  match before with
  | [] => ancestors
  | l :: r =>
      if indent l <? currentIndent
      then collectAncestors r (indent l) (text l :: ancestors)
      else collectAncestors r currentIndent ancestors
  end.

(** [a.slice(from, to)] *)
Definition slice {A} (from to : nat) (a : list A) : list A :=
  firstn (to - from) (skipn from a).

Definition branchDose (lineData : list LineData) (branchStart branchEnd : nat)
  : jsstring :=
  let branchLines := map text (slice branchStart branchEnd lineData) in
  let currentIndent :=
    match nth_error lineData branchStart with
    | Some l => indent l
    | None => 0
    end in
  let ancestors :=
    collectAncestors (rev (firstn branchStart lineData)) currentIndent [] in
  join lf (ancestors ++ branchLines).

(** The loop over [branchStartIndices]. *)
Fixpoint branchDoses (lineData : list LineData) (starts : list nat)
  : list jsstring :=
  match starts with
  | [] => []
  | s :: rest =>
      let branchEnd :=
        match rest with e :: _ => e | [] => length lineData end in
      branchDose lineData s branchEnd :: branchDoses lineData rest
  end.

(** [getHeadingLevel]: [line.trim().match(/^(#+)\s/)], the length of the
    run of [#] when a white-space character follows it, 0 otherwise. *)
Definition isHash (c : char) : bool := char_eqb c 35.

Definition getHeadingLevel (line : jsstring) : nat :=
  let t := trim line in
  let hashes := takeWhile isHash t in
  match hashes with
  | [] => 0
  | _ => if startsWithWS (dropWhile isHash t) then length hashes else 0
  end.

(** [line.trim().replace(/^#+\s/, '')] *)
Definition headingTextOf (line : jsstring) : jsstring :=
  let t := trim line in
  match takeWhile isHash t, dropWhile isHash t with
  | _ :: _, c :: r => if isWhiteSpace c then r else t
  | _, _ => t
  end.

(** State of the second pass: the closure variables [doses], [headingPath]
    and [currentContentLines]. *)
Record MdState := {
  doses : list jsstring;
  headingPath : list Heading;
  currentContentLines : list jsstring
}.

Definition mdInit : MdState :=
  {| doses := []; headingPath := []; currentContentLines := [] |}.

(** The doses of one block of [processContentBlock]. *)
Definition blockItems (block : jsstring) : list jsstring :=
  let isList := forallb (fun line => isListItem (trim line)) (splitLF block) in
  if isList then filter (fun li => truthy (trim li)) (splitLF block)
  else [block].

Definition withBreadcrumbs (hp : list Heading) (item : jsstring) : jsstring :=
  let breadcrumbs :=
    match hp with
    | [] => []
    | _ => breadcrumbOf hp ++ lf ++ lf
    end in
  breadcrumbs ++ item.

Definition processContentBlock (st : MdState) : MdState :=
  match currentContentLines st with
  | [] => st
  | _ =>
      let content := trim (join lf (currentContentLines st)) in
      if truthy content then
        let blocks := filter (fun b => truthy (trim b)) (splitBlank content) in
        let items := flat_map blockItems blocks in
        {| doses := doses st ++ map (withBreadcrumbs (headingPath st)) items;
           headingPath := headingPath st;
           currentContentLines := [] |}
      else
        {| doses := doses st;
           headingPath := headingPath st;
           currentContentLines := [] |}
  end.

(** Body of [for (const line of markdownLines)]. *)
Definition mdStep (st : MdState) (line : jsstring) : MdState :=
  let lvl := getHeadingLevel line in
  if 0 <? lvl then
    let st' := processContentBlock st in
    {| doses := doses st';
       headingPath := pushHeading lvl (headingTextOf line) (headingPath st');
       currentContentLines := currentContentLines st' |}
  else
    {| doses := doses st;
       headingPath := headingPath st;
       currentContentLines := currentContentLines st ++ [line] |}.

(** CASE 2 of the source: the heading/paragraph pass and its fallback. *)
Definition markdownPass (trimmedText : jsstring) : MdState :=
  processContentBlock (fold_left mdStep (splitLF trimmedText) mdInit).

Definition markdownCase (trimmedText : jsstring) : list jsstring :=
  match doses (markdownPass trimmedText) with
  | [] => [trimmedText]
  | ds => ds
  end.

Definition hasIndentation (lines : list jsstring) : bool :=
  existsb (fun line => 0 <? getIndentation line) lines.

Definition parseStructuredText (text : jsstring) : list jsstring :=
  let trimmedText := trim text in
  if negb (truthy trimmedText) then []
  else
    let lines := splitLF trimmedText in
    if hasIndentation lines then
      let lineData := map mkLineData lines in
      let indentedLines := filter (fun l => 0 <? indent l) lineData in
      match map indent indentedLines with
      | [] => lines
      | i :: others =>
          let firstBranchIndent := minimum i others in
          let branchStartIndices :=
            branchStartsFrom 0 firstBranchIndent lineData in
          match branchStartIndices with
          | [] => markdownCase trimmedText
          | _ => branchDoses lineData branchStartIndices
          end
      end
    else markdownCase trimmedText.

End Structured.

(* ================================================================== *)
(** ** extractTextFromDocx                                             *)
(* ================================================================== *)

Module Docx.

(** The part of the DOM the adapter reads: text nodes and elements with
    their tag name, their [src] property and their child nodes. *)
#[warnings="-register-all"]
Inductive Node :=
| TextNode (data : jsstring)
| Element (tagName : jsstring) (src : jsstring) (childNodes : list Node).

(** [node.textContent] *)
Fixpoint textContent (n : Node) : jsstring :=
  match n with
  | TextNode s => s
  | Element _ _ kids => concat (map textContent kids)
  end.

Definition isElement (n : Node) : bool :=
  match n with Element _ _ _ => true | TextNode _ => false end.

(** [element.children]: the child nodes that are elements. *)
Definition children (kids : list Node) : list Node := filter isElement kids.

Definition tagNameOf (n : Node) : jsstring :=
  match n with Element t _ _ => t | TextNode _ => [] end.
Definition srcOf (n : Node) : jsstring :=
  match n with Element _ s _ => s | TextNode _ => [] end.

(** [s.toUpperCase()], on the ASCII letters that tag names are made of. *)
Definition upperChar (c : char) : char :=
  if ((97 <=? c) && (c <=? 122))%N then (c - 32)%N else c.
Definition toUpperCase (s : jsstring) : jsstring := map upperChar s.

(** [tagName.match(/^H([1-6])$/)] followed by [parseInt(levelMatch[1], 10)]. *)
Definition headingLevelOfTag (tag : jsstring) : option nat :=
  match tag with
  | [h; d] =>
      if (char_eqb h 72 && (49 <=? d) && (d <=? 54))%N
      then Some (N.to_nat (d - 48))
      else None
  | _ => None
  end.

(** [s.startsWith(prefix)] *)
Fixpoint startsWith (prefix s : jsstring) : bool :=
  match prefix, s with
  | [], _ => true
  | p :: prefix', c :: s' => char_eqb p c && startsWith prefix' s'
  | _ :: _, [] => false
  end.

Record DocxState := {
  doses : list jsstring;
  headingPath : list Heading
}.

(** [createDose(content)] with the breadcrumb of the current element. *)
Definition createDose (breadcrumb content : jsstring) (doses : list jsstring)
  : list jsstring :=
  if truthy content then
    let doseText :=
      if truthy breadcrumb then breadcrumb ++ lf ++ lf ++ content
      else content in
    doses ++ [doseText]
  else doses.

(** The [.map((li, index) => ...)] over the [LI] children: [None] stands
    for [null]. *)
Fixpoint listItemsFrom (index : nat) (isUL : bool) (lis : list Node)
  : list (option jsstring) :=
  match lis with
  | [] => []
  | li :: rest =>
      let liContent := trim (textContent li) in
      let item :=
        if truthy liContent then
          let prefix :=
            if isUL then str "* " else decimal (index + 1) ++ str ". " in
          Some (prefix ++ liContent)
        else None in
      item :: listItemsFrom (S index) isUL rest
  end.

Fixpoint keepTruthy (l : list (option jsstring)) : list jsstring :=
  match l with
  | [] => []
  | Some v :: r => if truthy v then v :: keepTruthy r else keepTruthy r
  | None :: r => keepTruthy r
  end.

Definition isTag (name : string) (tag : jsstring) : bool :=
  jsstring_eqb tag (str name).

(** Body of [for (const node of Array.from(body.children))]. *)
Definition docxStep (st : DocxState) (element : Node) : DocxState :=
  let tagName := toUpperCase (tagNameOf element) in
  match headingLevelOfTag tagName with
  | Some lvl =>
      let headingText := trim (textContent element) in
      if truthy headingText then
        {| doses := doses st;
           headingPath := pushHeading lvl headingText (headingPath st) |}
      else st
  | None =>
      let breadcrumb := breadcrumbOf (headingPath st) in
      let doses' :=
        if isTag "P" tagName then
          createDose breadcrumb (trim (textContent element)) (doses st)
        else if isTag "UL" tagName || isTag "OL" tagName then
          let lis :=
            filter (fun child => isTag "LI" (toUpperCase (tagNameOf child)))
              (children (match element with
                         | Element _ _ kids => kids
                         | TextNode _ => []
                         end)) in
          let listItems :=
            keepTruthy (listItemsFrom 0 (isTag "UL" tagName) lis) in
          match listItems with
          | [] => doses st
          | _ => createDose breadcrumb (join lf listItems) (doses st)
          end
        else if isTag "IMG" tagName then
          let src := srcOf element in
          if truthy src && startsWith (str "data:image") src
          then createDose breadcrumb
                 (str "![Imagem do DOCX](" ++ src ++ str ")") (doses st)
          else doses st
        else createDose breadcrumb (trim (textContent element)) (doses st) in
      {| doses := doses'; headingPath := headingPath st |}
  end.

Definition docxInit : DocxState := {| doses := []; headingPath := [] |}.

(** The structured walk over the top-level elements of the body. *)
Definition walk (bodyNodes : list Node) : DocxState :=
  fold_left docxStep (children bodyNodes) docxInit.

(** A message of the converter. *)
Record Message := { mtype : jsstring; message : jsstring }.

(** What [mammoth.convertToHtml] and the HTML parser hand to the adapter:
    the converter's messages and the child nodes of [doc.body], or the
    message of the error that was thrown. *)
Inductive Converted :=
| Html (messages : list Message) (bodyNodes : list Node)
| Failed (errorMessage : jsstring).

Definition noStructureWarning : jsstring :=
  str "N" ++ [227%N] ++ str "o foi poss" ++ [237%N]
  ++ str "vel identificar uma estrutura clara (t" ++ [237%N]
  ++ str "tulos, par" ++ [225%N] ++ str "grafos). O texto foi dividido por par"
  ++ [225%N] ++ str "grafos.".

Definition noTextWarning : jsstring :=
  str "Nenhum texto foi encontrado no documento.".

Definition failureWarning (errorMessage : jsstring) : jsstring :=
  str "Falha ao processar o arquivo DOCX. Pode estar corrompido ou em um "
  ++ str "formato n"
  ++ [227%N] ++ str "o suportado. Erro: " ++ errorMessage.

(** [(body.textContent || '').split('\n\n').filter(p => p.trim())] *)
Definition rawTextDoses (bodyNodes : list Node) : list jsstring :=
  filter (fun p => truthy (trim p))
    (splitLFLF (concat (map textContent bodyNodes))).

Definition extractTextFromDocx (c : Converted)
  : list jsstring * list jsstring :=
  match c with
  | Failed errorMessage => ([], [failureWarning errorMessage])
  | Html messages bodyNodes =>
      let warnings :=
        map message
          (filter (fun msg => jsstring_eqb (mtype msg) (str "warning"))
             messages) in
      let doses := doses (walk bodyNodes) in
      match doses, warnings with
      | [], [] =>
          if truthy (trim (concat (map textContent bodyNodes))) then
            match rawTextDoses bodyNodes with
            | [] => (doses, warnings ++ [noTextWarning])
            | raw => (raw, warnings ++ [noStructureWarning])
            end
          else (doses, warnings ++ [noTextWarning])
      | _, _ => (doses, warnings)
      end
  end.

End Docx.

(* ================================================================== *)
(** ** extractTextFromPdf                                              *)
(* ================================================================== *)

Module Pdf.

Definition Qltb (a b : Q) : bool := negb (Qle_bool b a).
Definition Qmaxb (a b : Q) : Q := if Qle_bool a b then b else a.

(** A stable sort; [before a b] says that the comparator is negative on
    [(a, b)]. *)
Section Sort.
Variable A : Type.
Variable before : A -> A -> bool.

Fixpoint insertSorted (x : A) (l : list A) : list A :=
  match l with
  | [] => [x]
  | y :: l' => if before y x then y :: insertSorted x l' else x :: l
  end.

Definition stableSort (l : list A) : list A :=
  fold_right insertSorted [] l.
End Sort.

(** *** Step 1: text lines *)

(** An item of [textContent.items]: [str], [transform[4]], [transform[5]],
    [height] and [fontName]. *)
Record TextItem := {
  istr : jsstring;
  tx : Q;
  ty : Q;
  iheight : Q;
  ifontName : option jsstring
}.

(** [Math.round] *)
Definition round (q : Q) : Z := Qfloor (q + (1 # 2))%Q.

(** [{ type: 'text', ... } | { type: 'image', ... }] *)
Inductive PageElement :=
| TextEl (text : jsstring) (x y height : Q) (fontName : option jsstring)
| ImageEl (dataUrl : jsstring) (y : Q) (width height : Z).

Definition elementY (e : PageElement) : Q :=
  match e with
  | TextEl _ _ y _ _ => y
  | ImageEl _ y _ _ => y
  end.

(** [linesMap]: keys in insertion order, items of a key in arrival order. *)
Fixpoint linesMapAdd (y : Z) (item : TextItem)
  (linesMap : list (Z * list TextItem)) : list (Z * list TextItem) :=
  match linesMap with
  | [] => [(y, [item])]
  | (k, its) :: rest =>
      if Z.eqb k y then (k, its ++ [item]) :: rest
      else (k, its) :: linesMapAdd y item rest
  end.

Definition buildLinesMap (items : list TextItem) : list (Z * list TextItem) :=
  fold_left (fun m item => linesMapAdd (round (ty item)) item m) items [].

Definition lineElement (entry : Z * list TextItem) : list PageElement :=
  let (y, items) := entry in
  let sortedItems := stableSort (fun a b => Qltb (tx a) (tx b)) items in
  let text := join (str " ") (map istr sortedItems) in
  let x := match sortedItems with it :: _ => tx it | [] => 0%Q end in
  let height := fold_left Qmaxb (map iheight sortedItems) 0%Q in
  let fontName :=
    match sortedItems with it :: _ => ifontName it | [] => None end in
  if 0 <? length (trim text)
  then [TextEl text x (inject_Z y) height fontName]
  else [].

Definition textElements (items : list TextItem) : list PageElement :=
  flat_map lineElement
    (stableSort (fun a b => Z.ltb (fst b) (fst a)) (buildLinesMap items)).

(** *** Step 2: images of the operator list *)

(** A 2x3 affine matrix [[m0, m1, m2, m3, m4, m5]]. *)
Record Matrix := { m0 : Q; m1 : Q; m2 : Q; m3 : Q; m4 : Q; m5 : Q }.

Definition identity : Matrix :=
  {| m0 := 1; m1 := 0; m2 := 0; m3 := 1; m4 := 0; m5 := 0 |}%Q.

Definition transformMatrix (a b : Matrix) : Matrix :=
  {| m0 := m0 a * m0 b + m2 a * m1 b;
     m1 := m1 a * m0 b + m3 a * m1 b;
     m2 := m0 a * m2 b + m2 a * m3 b;
     m3 := m1 a * m2 b + m3 a * m3 b;
     m4 := m0 a * m4 b + m2 a * m5 b + m4 a;
     m5 := m1 a * m4 b + m3 a * m5 b + m5 a |}%Q.

(** The raster [page.objs.get] resolves to. *)
Record Image := {
  width : Z;
  height : Z;
  data : list N;
  colorspaceName : option jsstring
}.

(** Outcome of [await page.objs.get(imgRef)]: it throws, it gives nothing
    usable ([!img || !img.data]), or it gives a raster. *)
Inductive Resolved :=
| GetThrows
| GetNothing
| GetImage (img : Image).

Inductive Operator :=
| OpSave
| OpRestore
| OpTransform (args : Matrix)
| OpPaintImageXObject (imgRef : jsstring)
| OpOther.

(** The canvas of the browser: whether [getContext('2d')] gives a context,
    whether [createImageData] and the pixel buffer can be allocated for a
    width and height (they throw otherwise), and the data URL of a canvas
    holding given RGBA pixels. *)
Record Canvas := {
  hasContext : bool;
  canAllocate : Z -> Z -> bool;
  toDataURL : Z -> Z -> list N -> jsstring
}.

Fixpoint rgbToRgba (data : list N) : list N :=
  match data with
  | r :: g :: b :: rest => r :: g :: b :: 255%N :: rgbToRgba rest
  | _ => []
  end.

Definition grayToRgba (data : list N) : list N :=
  flat_map (fun g => [g; g; g; 255%N]) data.

(** The pixels put on the canvas, when the byte layout is supported. *)
Definition normalize (img : Image) : option (list N) :=
  let len := Z.of_nat (length (data img)) in
  let wh := (width img * height img)%Z in
  if (len =? wh * 3)%Z then Some (rgbToRgba (data img))
  else if (len =? wh * 4)%Z then Some (data img)
  else if (len =? wh)%Z then Some (grayToRgba (data img))
  else None.

Definition nao : jsstring := str "N" ++ [227%N] ++ str "o".
Definition pagina : jsstring := str "p" ++ [225%N] ++ str "gina".

Definition imageWarningPrefix : jsstring :=
  nao ++ str " foi poss" ++ [237%N] ++ str "vel processar uma imagem na "
  ++ pagina ++ str " ".

Definition imageWarningHead (pageNum : nat) : jsstring :=
  imageWarningPrefix ++ decimal pageNum.

Definition unsupportedWarning (pageNum : nat) (colorSpace : jsstring)
  : jsstring :=
  imageWarningHead pageNum ++ str ". O formato de cor (" ++ colorSpace
  ++ str ") n" ++ [227%N] ++ str "o " ++ [233%N] ++ str " suportado.".

Definition corruptWarning (pageNum : nat) : jsstring :=
  imageWarningHead pageNum ++ str ". O formato pode n" ++ [227%N]
  ++ str "o ser suportado ou a imagem est" ++ [225%N] ++ str " corrompida.".

Definition pageWarning (pageNum : nat) : jsstring :=
  str "Falha ao processar a " ++ pagina ++ str " " ++ decimal pageNum
  ++ str ". A p" ++ [225%N]
  ++ str "gina pode estar corrompida e foi ignorada.".

(** [img.colorspace?.name || 'desconhecido'] *)
Definition colorSpaceOf (img : Image) : jsstring :=
  match colorspaceName img with
  | Some (c :: n) => c :: n
  | _ => str "desconhecido"
  end.

(** The variables the operator loop reads and writes. *)
Record OpState := {
  matrixStack : list Matrix;
  currentMatrix : Matrix;
  pageElements : list PageElement;
  warnings : list jsstring
}.

Section Operators.
Variable canvas : Canvas.
Variable objs : jsstring -> Resolved.
Variable pageNum : nat.

Definition paintImage (imgRef : jsstring) (st : OpState) : OpState :=
  match objs imgRef with
  | GetThrows =>
      {| matrixStack := matrixStack st;
         currentMatrix := currentMatrix st;
         pageElements := pageElements st;
         warnings := warnings st ++ [corruptWarning pageNum] |}
  | GetNothing => st
  | GetImage img =>
      if hasContext canvas then
        if canAllocate canvas (width img) (height img) then
          match normalize img with
          | Some rgba =>
              let y := m5 (currentMatrix st) in
              {| matrixStack := matrixStack st;
                 currentMatrix := currentMatrix st;
                 pageElements :=
                   pageElements st
                   ++ [ImageEl (toDataURL canvas (width img) (height img) rgba)
                         y (width img) (height img)];
                 warnings := warnings st |}
          | None =>
              {| matrixStack := matrixStack st;
                 currentMatrix := currentMatrix st;
                 pageElements := pageElements st;
                 warnings :=
                   warnings st
                   ++ [unsupportedWarning pageNum (colorSpaceOf img)] |}
          end
        else
          {| matrixStack := matrixStack st;
             currentMatrix := currentMatrix st;
             pageElements := pageElements st;
             warnings := warnings st ++ [corruptWarning pageNum] |}
      else st
  end.

(** Body of the loop over [operatorList.fnArray]. *)
Definition opStep (st : OpState) (op : Operator) : OpState :=
  match op with
  | OpSave =>
      {| matrixStack := matrixStack st ++ [currentMatrix st];
         currentMatrix := currentMatrix st;
         pageElements := pageElements st;
         warnings := warnings st |}
  | OpRestore =>
      {| matrixStack := removelast (matrixStack st);
         currentMatrix :=
           match rev (matrixStack st) with
           | m :: _ => m
           | [] => identity
           end;
         pageElements := pageElements st;
         warnings := warnings st |}
  | OpTransform args =>
      {| matrixStack := matrixStack st;
         currentMatrix := transformMatrix (currentMatrix st) args;
         pageElements := pageElements st;
         warnings := warnings st |}
  | OpPaintImageXObject imgRef => paintImage imgRef st
  | OpOther => st
  end.

Definition runOperators (ops : list Operator) (st : OpState) : OpState :=
  fold_left opStep ops st.
End Operators.

(** *** Step 4: headings, blocks and doses *)

(** [{ height: number, text: string }] *)
Record PdfHeading := { hheight : Q; htext : jsstring }.

(** [headingPath.map(h => h.text).join(' > ')] *)
Definition breadcrumbOf (headingPath : list PdfHeading) : jsstring :=
  join (str " > ") (map htext headingPath).

(** The loop
    [while (headingPath.length > 0 &&
            headingPath[headingPath.length - 1].height <= height)
       headingPath.pop();] *)
Definition popHeights (fuel : nat) (height : Q) (headingPath : list PdfHeading)
  : list PdfHeading :=
  popWhile (fun top => Qle_bool (hheight top) height) fuel headingPath.

(** The pop loop followed by [headingPath.push({ height, text })]. *)
Definition pushHeading (height : Q) (txt : jsstring)
  (headingPath : list PdfHeading) : list PdfHeading :=
  popHeights (length headingPath) height headingPath
    ++ [{| hheight := height; htext := txt |}].

(** The callback of [currentBlockLines.reduce(..., '')]. *)
Definition foldLine (acc : jsstring) (lineText0 : jsstring) : jsstring :=
  let lineText := trim lineText0 in
  let accTrimmed := trim acc in
  if endsWithHyphen accTrimmed then dropLast accTrimmed ++ lineText
  else match acc with
       | [] => lineText
       | _ => acc ++ str " " ++ lineText
       end.

Definition proseText (blockLines : list jsstring) : jsstring :=
  trim (fold_left foldLine blockLines []).

Definition listText (blockLines : list jsstring) : jsstring :=
  join lf (map trim blockLines).

Definition listItemsCount (blockLines : list jsstring) : nat :=
  length (filter (fun line => isListItem (trim line)) blockLines).

(** [listItemsCount > 0 && listItemsCount >= currentBlockLines.length / 2] *)
Definition isList (blockLines : list jsstring) : bool :=
  (0 <? listItemsCount blockLines)
  && (length blockLines <=? 2 * listItemsCount blockLines).

Definition contentTextOf (blockLines : list jsstring) : jsstring :=
  if isList blockLines then listText blockLines else proseText blockLines.

Definition withBreadcrumb (headingPath : list PdfHeading) (body : jsstring)
  : jsstring :=
  let breadcrumb := breadcrumbOf headingPath in
  if truthy breadcrumb then breadcrumb ++ lf ++ lf ++ body else body.

(** The variables of step 4; [doses] outlives the page. *)
Record BlockState := {
  doses : list jsstring;
  headingPath : list PdfHeading;
  currentBlockLines : list jsstring;
  lastLine : option (Q * Q)
}.

Definition finalizeBlock (st : BlockState) : BlockState :=
  match currentBlockLines st with
  | [] => st
  | blockLines =>
      let contentText := contentTextOf blockLines in
      {| doses :=
           if truthy contentText
           then doses st ++ [withBreadcrumb (headingPath st) contentText]
           else doses st;
         headingPath := headingPath st;
         currentBlockLines := [];
         lastLine := lastLine st |}
  end.

(** [/bold|heavy|black/i.test(fontName)]: the ASCII letters of the pattern
    match their two cases only. *)
Definition lowerChar (c : char) : char :=
  if ((65 <=? c) && (c <=? 90))%N then (c + 32)%N else c.

Fixpoint prefixCI (pattern s : jsstring) : bool :=
  match pattern, s with
  | [], _ => true
  | p :: pattern', c :: s' => char_eqb p (lowerChar c) && prefixCI pattern' s'
  | _ :: _, [] => false
  end.

Fixpoint containsCI (pattern s : jsstring) : bool :=
  prefixCI pattern s
  || match s with
     | [] => false
     | _ :: s' => containsCI pattern s'
     end.

Definition isBoldFont (fontName : option jsstring) : bool :=
  match fontName with
  | Some name =>
      truthy name
      && (containsCI (str "bold") name || containsCI (str "heavy") name
          || containsCI (str "black") name)
  | None => false
  end.

(** [s.split(' ').length] *)
Definition spaceSplitLength (s : jsstring) : nat :=
  S (length (filter (fun c => char_eqb c 32) s)).

(** [/[.!?]$/.test(s)] *)
Definition endsSentence (s : jsstring) : bool :=
  match rev s with
  | c :: _ => char_eqb c 46 || char_eqb c 33 || char_eqb c 63
  | [] => false
  end.

Definition isLikelyHeading (text : jsstring) (x : Q)
  (fontName : option jsstring) : bool :=
  let trimmedText := trim text in
  negb (isListItem trimmedText)
  && (2 <? length trimmedText)
  && (length trimmedText <? 100)
  && (spaceSplitLength trimmedText <? 15)
  && negb (endsSentence trimmedText)
  && (isBoldFont fontName || Qltb x 80).

Definition isNewBlock (lastLine : option (Q * Q)) (y height : Q) : bool :=
  match lastLine with
  | None => true
  | Some (lastY, lastHeight) =>
      let verticalGap := ((lastY - lastHeight) - y)%Q in
      Qltb (height * (8 # 10))%Q verticalGap
  end.

(** Body of [for (const element of pageElements)]. *)
Definition elementStep (st : BlockState) (element : PageElement)
  : BlockState :=
  match element with
  | TextEl text x y height fontName =>
      let newBlock := isNewBlock (lastLine st) y height in
      if isLikelyHeading text x fontName && newBlock then
        let st' := finalizeBlock st in
        {| doses := doses st';
           headingPath := pushHeading height (trim text) (headingPath st');
           currentBlockLines := currentBlockLines st';
           lastLine := Some (y, height) |}
      else
        let st' := if newBlock then finalizeBlock st else st in
        {| doses := doses st';
           headingPath := headingPath st';
           currentBlockLines := currentBlockLines st' ++ [text];
           lastLine := Some (y, height) |}
  | ImageEl dataUrl y width height =>
      let st' := finalizeBlock st in
      let imageDose := str "![Imagem do PDF](" ++ dataUrl ++ str ")" in
      {| doses := doses st' ++ [withBreadcrumb (headingPath st') imageDose];
         headingPath := headingPath st';
         currentBlockLines := currentBlockLines st';
         lastLine := None |}
  end.

(** The state step 4 starts from on every page: [headingPath],
    [currentBlockLines] and [lastLine] are declared inside the page loop. *)
Definition pageInit (doses : list jsstring) : BlockState :=
  {| doses := doses; headingPath := []; currentBlockLines := [];
     lastLine := None |}.

(** Step 3 ([pageElements.sort((a, b) => b.y - a.y)]) and step 4. *)
Definition sortElements (els : list PageElement) : list PageElement :=
  stableSort (fun a b => Qltb (elementY b) (elementY a)) els.

Definition runElements (els : list PageElement) (st : BlockState)
  : BlockState :=
  finalizeBlock (fold_left elementStep els st).

(** *** The page loop *)

(** What [getPage], [getTextContent] and [getOperatorList] give for a
    page. *)
Record Page := {
  items : list TextItem;
  operators : list Operator;
  objs : jsstring -> Resolved
}.

(** The elements of a page after steps 1 to 3, and the warnings of step 2. *)
Definition pageOps (canvas : Canvas) (pageNum : nat) (page : Page)
  (warnings : list jsstring) : OpState :=
  runOperators canvas (objs page) pageNum (operators page)
    {| matrixStack := []; currentMatrix := identity;
       pageElements := textElements (items page);
       warnings := warnings |}.

(** One iteration of [for (pageNum = 1; pageNum <= numPages; pageNum++)];
    [None] is a page whose retrieval throws. *)
Definition pageStep (canvas : Canvas) (pageNum : nat) (page : option Page)
  (acc : list jsstring * list jsstring) : list jsstring * list jsstring :=
  let (doses0, warnings0) := acc in
  match page with
  | None => (doses0, warnings0 ++ [pageWarning pageNum])
  | Some pg =>
      let ops := pageOps canvas pageNum pg warnings0 in
      let st :=
        runElements (sortElements (pageElements ops)) (pageInit doses0) in
      (doses st, warnings ops)
  end.

Fixpoint pagesFrom (canvas : Canvas) (pageNum : nat)
  (pages : list (option Page)) (acc : list jsstring * list jsstring)
  : list jsstring * list jsstring :=
  match pages with
  | [] => acc
  | page :: rest =>
      pagesFrom canvas (S pageNum) rest (pageStep canvas pageNum page acc)
  end.

Definition extractTextFromPdf (canvas : Canvas) (pages : list (option Page))
  : list jsstring * list jsstring :=
  pagesFrom canvas 1 pages ([], []).

End Pdf.

(* ================================================================== *)
(** ** extractTextAsMindMapFromSvg and extractTextAsMindMapFromPdf     *)
(* ================================================================== *)

Module MindMap.





















End MindMap.

(* ================================================================== *)
(** ** renderContentWithImages (the review card)                       *)
(* ================================================================== *)

Module Card.

(** The characters [.] does not match. *)
Definition isLineTerminator (c : char) : bool :=
  ((c =? 10) || (c =? 13) || (c =? 8232) || (c =? 8233))%N.

Definition notTerminator (c : char) : bool := negb (isLineTerminator c).

(** [s.includes(pattern)] *)
Fixpoint contains (pattern s : jsstring) : bool :=
  Docx.startsWith pattern s
  || match s with
     | [] => false
     | _ :: s' => contains pattern s'
     end.

(** The two groups of the match of [breadcrumbMatch]: a first line that
    contains [" > "], two line feeds, and the rest of the text.  The first
    group is made of characters that are not line terminators and is
    followed by a line feed, so it is the whole first line, whatever the
    two greedy parts take on either side of [" > "]. *)
Definition breadcrumbMatch (text : jsstring) : option (jsstring * jsstring) :=
  let firstLine := takeWhile notTerminator text in
  match dropWhile notTerminator text with
  | a :: b :: rest =>
      if char_eqb a LF && char_eqb b LF && contains (str " > ") firstLine
      then Some (firstLine, rest)
      else None
  | _ => None
  end.

(** The values of [breadcrumb] and [mainContent] that are rendered. *)
Definition splitBreadcrumb (text : jsstring) : option jsstring * jsstring :=
  match breadcrumbMatch text with
  | Some (breadcrumb, mainContent) => (Some breadcrumb, mainContent)
  | None => (None, text)
  end.

End Card.

(* ================================================================== *)
(** ** State handlers of the application                               *)
(* ================================================================== *)

Module App.

(** [StudyContent], [Subject] and [ReviewItem] of [types.ts]. *)
Record StudyContent := { cid : jsstring; ctext : jsstring }.
Record Subject := {
  sid : jsstring;
  sname : jsstring;
  content : list StudyContent
}.
Record ReviewItem := { subjectId : jsstring; contentId : jsstring }.

Inductive DoseType := Review | New.

(** [TodayContent] *)
Record TodayContent := {
  tid : jsstring;
  ttext : jsstring;
  tsubjectName : jsstring;
  tsubjectId : jsstring;
  ttype : DoseType
}.

(** [subjects.find(s => s.id === activeSubjectId) || null] *)
Definition activeSubject (subjects : list Subject)
  (activeSubjectId : option jsstring) : option Subject :=
  match activeSubjectId with
  | Some i => find (fun s => jsstring_eqb (sid s) i) subjects
  | None => None
  end.

(** [doses.map(dose => ({ id: crypto.randomUUID(), text: dose }))], where
    [uuid k] is the [k]-th identifier the generator gives and [n] the
    number of identifiers already taken. *)
Fixpoint newContentsFrom (uuid : nat -> jsstring) (n : nat)
  (doses : list jsstring) : list StudyContent :=
  match doses with
  | [] => []
  | dose :: rest =>
      {| cid := uuid n; ctext := dose |} :: newContentsFrom uuid (S n) rest
  end.

(** The payload of [handleAddContent]. *)
Inductive AddPayload :=
| AddText (text : jsstring)
| AddMindmap (text : jsstring)
| AddFile (doses : list jsstring).

(** [handleAddContent]: the new value of [subjects]. *)
Definition handleAddContent (uuid : nat -> jsstring)
  (subjects : list Subject) (activeSubjectId : option jsstring)
  (payload : AddPayload) : list Subject :=
  match activeSubject subjects activeSubjectId with
  | None => subjects
  | Some active =>
      let newContents :=
        match payload with
        | AddText text | AddMindmap text =>
            newContentsFrom uuid 0 (Structured.parseStructuredText text)
        | AddFile doses => newContentsFrom uuid 0 doses
        end in
      match newContents with
      | [] => subjects
      | _ =>
          map (fun s =>
                 if jsstring_eqb (sid s) (sid active)
                 then {| sid := sid s; sname := sname s;
                         content := content s ++ newContents |}
                 else s)
            subjects
      end
  end.

(** [s.content.findIndex(c => c.id === contentId)], [None] for [-1]. *)
Fixpoint findIndex (contentId : jsstring) (l : list StudyContent)
  : option nat :=
  match l with
  | [] => None
  | c :: r =>
      if jsstring_eqb (cid c) contentId then Some 0
      else match findIndex contentId r with
           | Some i => Some (S i)
           | None => None
           end
  end.

(** The content of the active subject after [handleUpdateContent], and
    the number of identifiers taken. *)
Definition updateContent (uuid : nat -> jsstring) (n : nat)
  (contentId newText : jsstring) (reprocessAsMindMap : bool)
  (l : list StudyContent) : list StudyContent * nat :=
  if negb reprocessAsMindMap then
    (map (fun c =>
            if jsstring_eqb (cid c) contentId
            then {| cid := cid c; ctext := newText |}
            else c) l, n)
  else
    match findIndex contentId l with
    | None => (l, n)
    | Some originalContentIndex =>
        let doses := Structured.parseStructuredText newText in
        let newDoses := newContentsFrom uuid n doses in
        (firstn originalContentIndex l ++ newDoses
           ++ skipn (S originalContentIndex) l,
         n + length doses)
    end.

(** The [subjects.map] of [handleUpdateContent]. *)
Fixpoint updateSubjects (uuid : nat -> jsstring) (n : nat)
  (activeId contentId newText : jsstring) (reprocessAsMindMap : bool)
  (subjects : list Subject) : list Subject :=
  match subjects with
  | [] => []
  | s :: rest =>
      if jsstring_eqb (sid s) activeId then
        let (newContent, n') :=
          updateContent uuid n contentId newText reprocessAsMindMap
            (content s) in
        {| sid := sid s; sname := sname s; content := newContent |}
        :: updateSubjects uuid n' activeId contentId newText
             reprocessAsMindMap rest
      else
        s :: updateSubjects uuid n activeId contentId newText
               reprocessAsMindMap rest
  end.

(** [handleUpdateContent]: the new value of [subjects]. *)
Definition handleUpdateContent (uuid : nat -> jsstring)
  (subjects : list Subject) (activeSubjectId : option jsstring)
  (contentId newText : jsstring) (reprocessAsMindMap : bool)
  : list Subject :=
  match activeSubject subjects activeSubjectId with
  | None => subjects
  | Some active =>
      updateSubjects uuid 0 (sid active) contentId newText
        reprocessAsMindMap subjects
  end.

(** The update of [reviewQueue] in [handleMarkForReview]. *)
Definition handleMarkForReview (todayContents : list TodayContent)
  (currentDoseIndex : nat) (prev : list ReviewItem) : list ReviewItem :=
  match nth_error todayContents currentDoseIndex with
  | Some currentDose =>
      let isAlreadyInQueue :=
        existsb (fun item => jsstring_eqb (contentId item) (tid currentDose))
          prev in
      if isAlreadyInQueue then prev
      else prev ++ [{| subjectId := tsubjectId currentDose;
                       contentId := tid currentDose |}]
  | None => prev
  end.

Definition isReview (c : TodayContent) : bool :=
  match ttype c with Review => true | New => false end.

(** The update of [reviewQueue] in [handleFinishReview]. *)
Definition handleFinishReview (todayContents : list TodayContent)
  (prev : list ReviewItem) : list ReviewItem :=
  let reviewedItemIds := map tid (filter isReview todayContents) in
  filter
    (fun item =>
       negb (existsb (fun i => jsstring_eqb i (contentId item))
               reviewedItemIds))
    prev.

(** The stored value of [useStudyStreak]. *)
Record StreakData := { streak : nat; lastReviewed : option jsstring }.

Definition sameDay (last : option jsstring) (day : jsstring) : bool :=
  match last with
  | Some d => jsstring_eqb d day
  | None => false
  end.

(** [markAsCompleted]: [today] and [yesterdayStr] are the two date strings
    the callback computes from the clock. *)
Definition markAsCompleted (today yesterdayStr : jsstring)
  (streakData : StreakData) : StreakData :=
  if sameDay (lastReviewed streakData) today then streakData
  else if sameDay (lastReviewed streakData) yesterdayStr
  then {| streak := streak streakData + 1; lastReviewed := Some today |}
  else {| streak := 1; lastReviewed := Some today |}.

End App.


(** The operator sequences in which every [save] has its [restore]. *)
Inductive Balanced : list Pdf.Operator -> Prop :=
| Balanced_nil : Balanced []
| Balanced_transform : forall args ops,
    Balanced ops -> Balanced (Pdf.OpTransform args :: ops)
| Balanced_paint : forall imgRef ops,
    Balanced ops -> Balanced (Pdf.OpPaintImageXObject imgRef :: ops)
| Balanced_other : forall ops,
    Balanced ops -> Balanced (Pdf.OpOther :: ops)
| Balanced_group : forall inner ops,
    Balanced inner -> Balanced ops ->
    Balanced (Pdf.OpSave :: inner ++ Pdf.OpRestore :: ops).

(* ================================================================== *)
(** ** The order of a heading stack                                    *)
(* ================================================================== *)

(** Level numbers strictly increase from the bottom of the stack to its
    top. *)
Definition increasingLevels (hp : list Heading) : Prop :=
  StronglySorted (fun a b => level a < level b) hp.

(** Glyph heights strictly decrease from the bottom of the stack to its
    top. *)
Definition decreasingHeights (hp : list Pdf.PdfHeading) : Prop :=
  StronglySorted (fun a b => (Pdf.hheight b < Pdf.hheight a)%Q) hp.

(** The state of step 4 with doses put in front of its own. *)
Definition prependDoses (d : list jsstring) (st : Pdf.BlockState)
  : Pdf.BlockState :=
  {| Pdf.doses := d ++ Pdf.doses st;
     Pdf.headingPath := Pdf.headingPath st;
     Pdf.currentBlockLines := Pdf.currentBlockLines st;
     Pdf.lastLine := Pdf.lastLine st |}.

(** Two states of the operator loop that differ in their warnings only. *)
Definition sameGeometry (a b : Pdf.OpState) : Prop :=
  Pdf.matrixStack a = Pdf.matrixStack b
  /\ Pdf.currentMatrix a = Pdf.currentMatrix b
  /\ Pdf.pageElements a = Pdf.pageElements b.

(** A string with no white space at either end. *)
Definition Trimmed (s : jsstring) : Prop :=
  startsWithWS s = false /\ startsWithWS (rev s) = false.

(* ================================================================== *)
(** ** Examples of the specification                                   *)
(* ================================================================== *)

(** The Markdown example: [# Econ], [## Supply], a sentence, a blank line,
    [## Demand] and two bullet lines. *)
Definition econInput : jsstring :=
  join lf [str "# Econ"; str "## Supply";
           str "Prices rise when supply falls."; str "";
           str "## Demand"; str "* more buyers"; str "* less buyers"].

Definition econSupply : jsstring :=
  str "Econ > Supply" ++ lf ++ lf ++ str "Prices rise when supply falls.".
Definition econDemand : jsstring :=
  str "Econ > Demand" ++ lf ++ lf ++ str "* more buyers" ++ lf
  ++ str "* less buyers".
Definition econDemandMore : jsstring :=
  str "Econ > Demand" ++ lf ++ lf ++ str "* more buyers".
Definition econDemandLess : jsstring :=
  str "Econ > Demand" ++ lf ++ lf ++ str "* less buyers".

(** A canvas that works, for the examples. *)
Definition plainCanvas : Pdf.Canvas :=
  {| Pdf.hasContext := true;
     Pdf.canAllocate := fun _ _ => true;
     Pdf.toDataURL := fun _ _ _ => str "data:image/png;base64,AAAA" |}.

(** A raster of 2 x 1 pixels with two bytes per pixel. *)
Definition twoBytesPerPixel : Pdf.Image :=
  {| Pdf.width := 2; Pdf.height := 1;
     Pdf.data := [10; 20; 30; 40]%N;
     Pdf.colorspaceName := Some (str "DeviceGrayAlpha") |}.

(** A page whose only line is a heading, and a page whose only line is a
    sentence. *)
Definition chapterLine : Pdf.TextItem :=
  {| Pdf.istr := str "Chapter One"; Pdf.tx := 50; Pdf.ty := 700;
     Pdf.iheight := 20; Pdf.ifontName := None |}.
Definition bodyLine : Pdf.TextItem :=
  {| Pdf.istr := str "This text opens the second page."; Pdf.tx := 100;
     Pdf.ty := 650; Pdf.iheight := 10; Pdf.ifontName := None |}.

Definition pageOf (items : list Pdf.TextItem) : option Pdf.Page :=
  Some {| Pdf.items := items; Pdf.operators := [];
          Pdf.objs := fun _ => Pdf.GetNothing |}.

(** A converted DOCX whose body is one heading, with a warning of the
    converter. *)
Definition headingOnlyBody : list Docx.Node :=
  [Docx.Element (str "h1") [] [Docx.TextNode (str "Title")]].
Definition styleWarning : Docx.Message :=
  {| Docx.mtype := str "warning";
     Docx.message := str "Unrecognised paragraph style: Fancy" |}.

(* ================================================================== *)
(** ** Properties of the string primitives                             *)
(* ================================================================== *)

Lemma dropWhile_all (p : char -> bool) (s : jsstring) :
  forallb p s = true -> dropWhile p s = [].
Proof.
  induction s as [|c r IH]; simpl; [reflexivity|].
  intros H. apply andb_true_iff in H as [Hc Hr].
  rewrite Hc. exact (IH Hr).
Qed.

Lemma trim_blank (s : jsstring) :
  forallb isWhiteSpace s = true -> trim s = [].
Proof.
  intros H. unfold trim, trimStart, trimEnd.
  rewrite (dropWhile_all _ _ H). reflexivity.
Qed.

Lemma splitLF_nonempty (s : jsstring) : splitLF s <> [].
Proof.
  destruct s as [|c r]; simpl; [discriminate|].
  destruct (char_eqb c LF); [discriminate|].
  destruct (splitLF r); discriminate.
Qed.

(* ================================================================== *)
(** ** parseStructuredText: never empty on non-empty input             *)
(* ================================================================== *)

Lemma markdownCase_nonempty (t : jsstring) : Structured.markdownCase t <> [].
Proof.
  unfold Structured.markdownCase.
  destruct (Structured.doses (Structured.markdownPass t)); discriminate.
Qed.

Lemma branchDoses_nonempty ld (starts : list nat) :
  starts <> [] -> Structured.branchDoses ld starts <> [].
Proof.
  destruct starts as [|s rest]; [congruence|]. simpl. discriminate.
Qed.

(** C2. Whenever the trimmed input is not empty, [parseStructuredText]
    returns at least one dose; when the input has no indented line and the
    heading/paragraph pass emits nothing, the result is the trimmed input
    as a single dose. *)
Theorem parseStructuredText_nonempty (text : jsstring) :
  trim text <> [] ->
  Structured.parseStructuredText text <> []
  /\ 1 <= length (Structured.parseStructuredText text)
  /\ (Structured.hasIndentation (splitLF (trim text)) = false ->
      Structured.doses (Structured.markdownPass (trim text)) = [] ->
      Structured.parseStructuredText text = [trim text]).
Proof.
  intros Hne.
  assert (Hres : Structured.parseStructuredText text <> []).
  { unfold Structured.parseStructuredText.
    destruct (trim text) as [|c t] eqn:Ht; [congruence|]. simpl negb. cbv iota.
    destruct (Structured.hasIndentation (splitLF (c :: t)));
      [|apply markdownCase_nonempty].
    destruct (map Structured.indent _) as [|i others];
      [apply splitLF_nonempty|].
    destruct (Structured.branchStartsFrom 0 _ _) as [|b bs] eqn:Hb;
      [apply markdownCase_nonempty|].
    apply branchDoses_nonempty. discriminate. }
  split; [exact Hres|]. split.
  - destruct (Structured.parseStructuredText text); [congruence|simpl; lia].
  - intros Hind Hdoses. unfold Structured.parseStructuredText.
    destruct (trim text) as [|c t] eqn:Ht; [congruence|]. simpl negb. cbv iota.
    rewrite Hind. unfold Structured.markdownCase. rewrite Hdoses. reflexivity.
Qed.

Lemma parseStructuredText_nonempty_witness :
  trim (str "# Title") <> []
  /\ Structured.parseStructuredText (str "# Title") = [str "# Title"].
Proof.
  split; [vm_compute; discriminate|].
  apply (parseStructuredText_nonempty (str "# Title"));
    [vm_compute; discriminate|reflexivity|reflexivity].
Defined.

(** C8. An input that is empty or made of white space only gives the
    empty list. *)
Theorem parseStructuredText_blank (text : jsstring) :
  forallb isWhiteSpace text = true ->
  Structured.parseStructuredText text = [].
Proof.
  intros H. unfold Structured.parseStructuredText.
  rewrite (trim_blank _ H). reflexivity.
Qed.

Lemma parseStructuredText_blank_witness :
  Structured.parseStructuredText [] = []
  /\ Structured.parseStructuredText (str "  " ++ lf ++ [9%N; 160%N]) = [].
Proof.
  split; apply parseStructuredText_blank; reflexivity.
Defined.

(** C4 as the specification states it fails: the Markdown example does not
    give the two doses of the specification. *)
Lemma econ_not_two_doses :
  Structured.parseStructuredText econInput <> [econSupply; econDemand].
Proof.
  vm_compute. discriminate.
Qed.

(** C4, amended. The Markdown example gives three doses: the paragraph
    under [Econ > Supply], and one dose per bullet line under
    [Econ > Demand], because a block whose lines are all list items is
    split line by line. *)
Theorem econ_three_doses :
  Structured.parseStructuredText econInput
  = [econSupply; econDemandMore; econDemandLess].
Proof.
  vm_compute. reflexivity.
Qed.

(* ================================================================== *)
(** ** The heading stack stays ordered                                 *)
(* ================================================================== *)

Section StackOrder.
Variable A : Type.
Variable R : A -> A -> Prop.

Lemma sorted_snoc (l : list A) (x : A) :
  StronglySorted R l -> Forall (fun a => R a x) l ->
  StronglySorted R (l ++ [x]).
Proof.
  induction 1 as [|a l Hl IH Ha]; intros Hx; simpl.
  - constructor; constructor.
  - inversion Hx; subst. constructor; [apply IH; assumption|].
    apply Forall_app. split; [assumption|].
    constructor; [assumption|constructor].
Qed.

Lemma sorted_snoc_inv (l : list A) (x : A) :
  StronglySorted R (l ++ [x]) ->
  StronglySorted R l /\ Forall (fun a => R a x) l.
Proof.
  induction l as [|a l IH]; simpl; intros H.
  - split; constructor.
  - inversion H as [|? ? Hs Hall]; subst.
    destruct (IH Hs) as [Hl Hx].
    apply Forall_app in Hall as [Hal Hax].
    split; constructor; try assumption.
    inversion Hax; assumption.
Qed.

Lemma sorted_firstn (k : nat) (l : list A) :
  StronglySorted R l -> StronglySorted R (firstn k l).
Proof.
  intros H. revert k.
  induction H as [|a l Hl IH Ha]; intros [|k]; simpl; try constructor.
  - apply IH.
  - apply Forall_forall. intros b Hb.
    eapply Forall_forall in Ha; [exact Ha|].
    rewrite <- (firstn_skipn k l). apply in_or_app. left. exact Hb.
Qed.

Variable cond : A -> bool.
Variable keep : A -> Prop.
Hypothesis keep_top : forall a, cond a = false -> keep a.
Hypothesis keep_below : forall a b, R a b -> keep b -> keep a.

(** Every state of the pop loop is an initial segment of the array. *)
Lemma popWhile_prefix (fuel : nat) (l : list A) :
  exists k, popWhile cond fuel l = firstn k l.
Proof.
  revert l. induction fuel as [|f IH]; intros l; simpl.
  - exists (length l). symmetry. apply firstn_all.
  - destruct (rev l) as [|top r];
      [exists (length l); symmetry; apply firstn_all|].
    destruct (cond top); [|exists (length l); symmetry; apply firstn_all].
    destruct (IH (removelast l)) as [k Hk]. rewrite Hk.
    rewrite removelast_firstn_len, firstn_firstn. eauto.
Qed.

Lemma popWhile_sorted (fuel : nat) (l : list A) :
  StronglySorted R l -> StronglySorted R (popWhile cond fuel l).
Proof.
  intros H. destruct (popWhile_prefix fuel l) as [k ->].
  apply sorted_firstn, H.
Qed.

(** Run to its end, the loop leaves only entries that are kept. *)
Lemma popWhile_keep (fuel : nat) (l : list A) :
  length l <= fuel -> StronglySorted R l ->
  Forall keep (popWhile cond fuel l).
Proof.
  revert l. induction fuel as [|f IH]; intros l Hlen Hs; simpl.
  - destruct l; [constructor|simpl in Hlen; lia].
  - destruct (rev l) as [|top r] eqn:E.
    + apply (f_equal (@rev A)) in E. rewrite rev_involutive in E.
      subst l. constructor.
    + apply (f_equal (@rev A)) in E. rewrite rev_involutive in E.
      simpl in E. subst l.
      apply sorted_snoc_inv in Hs as [Hs Hall].
      destruct (cond top) eqn:Hc.
      * rewrite removelast_last. apply IH; [|assumption].
        rewrite length_app in Hlen. simpl in Hlen. lia.
      * apply Forall_app. split.
        -- eapply Forall_impl; [|exact Hall].
           intros a Ha. eapply keep_below; [exact Ha|]. apply keep_top, Hc.
        -- constructor; [apply keep_top, Hc|constructor].
Qed.

End StackOrder.

(** Pushing a heading of level [lvl]: the entries that remain below it are
    an initial part of the old stack with smaller levels. *)
Lemma pushHeading_levels (lvl : nat) (txt : jsstring) (hp : list Heading) :
  increasingLevels hp ->
  exists below,
    pushHeading lvl txt hp = below ++ [{| level := lvl; htext := txt |}]
    /\ Forall (fun h => level h < lvl) below
    /\ increasingLevels (pushHeading lvl txt hp).
Proof.
  intros Hs. unfold pushHeading, popLevels.
  set (R := fun a b : Heading => level a < level b).
  assert (Hk : Forall (fun h => level h < lvl)
                 (popWhile (fun top => lvl <=? level top) (length hp) hp)).
  { apply (@popWhile_keep _ R); auto.
    - intros a Ha. apply Nat.leb_gt in Ha. exact Ha.
    - unfold R. intros a b Hab Hb. lia. }
  eexists. split; [reflexivity|]. split; [exact Hk|].
  apply sorted_snoc; [apply popWhile_sorted; exact Hs|exact Hk].
Qed.

Lemma pushHeading_heights (h : Q) (txt : jsstring)
  (hp : list Pdf.PdfHeading) :
  decreasingHeights hp ->
  exists below,
    Pdf.pushHeading h txt hp
    = below ++ [{| Pdf.hheight := h; Pdf.htext := txt |}]
    /\ Forall (fun e => (h < Pdf.hheight e)%Q) below
    /\ decreasingHeights (Pdf.pushHeading h txt hp).
Proof.
  intros Hs. unfold Pdf.pushHeading, Pdf.popHeights.
  set (R := fun a b : Pdf.PdfHeading => (Pdf.hheight b < Pdf.hheight a)%Q).
  assert (Hk : Forall (fun e => (h < Pdf.hheight e)%Q)
                 (popWhile (fun top => Qle_bool (Pdf.hheight top) h)
                    (length hp) hp)).
  { apply (@popWhile_keep _ R); auto.
    - intros a Ha. apply Qnot_le_lt. intros Hle.
      apply Qle_bool_iff in Hle. congruence.
    - unfold R. intros a b Hab Hb. eapply Qlt_trans; eassumption. }
  eexists. split; [reflexivity|]. split; [exact Hk|].
  apply sorted_snoc; [apply popWhile_sorted; exact Hs|exact Hk].
Qed.

Lemma processContentBlock_path (st : Structured.MdState) :
  Structured.headingPath (Structured.processContentBlock st)
  = Structured.headingPath st.
Proof.
  unfold Structured.processContentBlock.
  destruct (Structured.currentContentLines st); [reflexivity|].
  destruct (truthy _); reflexivity.
Qed.

Lemma mdStep_sorted (st : Structured.MdState) (line : jsstring) :
  increasingLevels (Structured.headingPath st) ->
  increasingLevels (Structured.headingPath (Structured.mdStep st line)).
Proof.
  intros H. unfold Structured.mdStep.
  destruct (0 <? Structured.getHeadingLevel line); simpl; [|exact H].
  rewrite processContentBlock_path.
  destruct (pushHeading_levels (Structured.getHeadingLevel line)
              (Structured.headingTextOf line) H) as [_ [_ [_ Hs]]].
  exact Hs.
Qed.

Lemma md_run_sorted (lines : list jsstring) (st : Structured.MdState) :
  increasingLevels (Structured.headingPath st) ->
  increasingLevels
    (Structured.headingPath (fold_left Structured.mdStep lines st)).
Proof.
  revert st. induction lines as [|l ls IH]; intros st H; simpl; [exact H|].
  apply IH, mdStep_sorted, H.
Qed.

Lemma docxStep_sorted (st : Docx.DocxState) (el : Docx.Node) :
  increasingLevels (Docx.headingPath st) ->
  increasingLevels (Docx.headingPath (Docx.docxStep st el)).
Proof.
  intros H. unfold Docx.docxStep.
  destruct (Docx.headingLevelOfTag _) as [lvl|]; [|exact H].
  destruct (truthy _); [|exact H]. simpl.
  destruct (pushHeading_levels lvl (trim (Docx.textContent el)) H)
    as [_ [_ [_ Hs]]].
  exact Hs.
Qed.

Lemma docx_run_sorted (els : list Docx.Node) (st : Docx.DocxState) :
  increasingLevels (Docx.headingPath st) ->
  increasingLevels (Docx.headingPath (fold_left Docx.docxStep els st)).
Proof.
  revert st. induction els as [|e es IH]; intros st H; simpl; [exact H|].
  apply IH, docxStep_sorted, H.
Qed.

Lemma finalizeBlock_path (st : Pdf.BlockState) :
  Pdf.headingPath (Pdf.finalizeBlock st) = Pdf.headingPath st.
Proof.
  unfold Pdf.finalizeBlock.
  destruct (Pdf.currentBlockLines st); reflexivity.
Qed.

Lemma elementStep_sorted (st : Pdf.BlockState) (el : Pdf.PageElement) :
  decreasingHeights (Pdf.headingPath st) ->
  decreasingHeights (Pdf.headingPath (Pdf.elementStep st el)).
Proof.
  intros H. destruct el as [text x y h font|url y w h]; simpl.
  - destruct (Pdf.isLikelyHeading text x font
              && Pdf.isNewBlock (Pdf.lastLine st) y h); simpl.
    + rewrite finalizeBlock_path.
      destruct (pushHeading_heights h (trim text) H) as [_ [_ [_ Hs]]].
      exact Hs.
    + destruct (Pdf.isNewBlock (Pdf.lastLine st) y h);
        [rewrite finalizeBlock_path|]; exact H.
  - rewrite finalizeBlock_path. exact H.
Qed.

Lemma pdf_run_sorted (els : list Pdf.PageElement) (st : Pdf.BlockState) :
  decreasingHeights (Pdf.headingPath st) ->
  decreasingHeights (Pdf.headingPath (fold_left Pdf.elementStep els st)).
Proof.
  revert st. induction els as [|e es IH]; intros st H; simpl; [exact H|].
  apply IH, elementStep_sorted, H.
Qed.

(** C3. In the three pipelines that keep a heading stack, the stack is
    strictly ordered by depth after any number of processed lines or
    elements (level numbers strictly increasing for Markdown and DOCX, glyph
    heights strictly decreasing for PDF), it stays so in every state of the
    pop loop, and right after a heading of level (height) [L] is processed
    the entries that remain below the new one all have a level smaller than
    [L] (a height greater than [L]). *)
Theorem heading_stack_invariant :
  (forall lines : list jsstring,
     let st := fold_left Structured.mdStep lines Structured.mdInit in
     increasingLevels (Structured.headingPath st)
     /\ (forall fuel lvl,
           increasingLevels (popLevels fuel lvl (Structured.headingPath st)))
     /\ (forall line,
           0 < Structured.getHeadingLevel line ->
           exists below,
             Structured.headingPath (Structured.mdStep st line)
             = below ++ [{| level := Structured.getHeadingLevel line;
                            htext := Structured.headingTextOf line |}]
             /\ Forall (fun h => level h < Structured.getHeadingLevel line)
                  below))
  /\ (forall els : list Docx.Node,
        let st := fold_left Docx.docxStep els Docx.docxInit in
        increasingLevels (Docx.headingPath st)
        /\ (forall fuel lvl,
              increasingLevels (popLevels fuel lvl (Docx.headingPath st)))
        /\ (forall el lvl,
              Docx.headingLevelOfTag (Docx.toUpperCase (Docx.tagNameOf el))
              = Some lvl ->
              trim (Docx.textContent el) <> [] ->
              exists below,
                Docx.headingPath (Docx.docxStep st el)
                = below ++ [{| level := lvl;
                               htext := trim (Docx.textContent el) |}]
                /\ Forall (fun h => level h < lvl) below))
  /\ (forall (els : list Pdf.PageElement) (doses : list jsstring),
        let st := fold_left Pdf.elementStep els (Pdf.pageInit doses) in
        decreasingHeights (Pdf.headingPath st)
        /\ (forall fuel h,
              decreasingHeights (Pdf.popHeights fuel h (Pdf.headingPath st)))
        /\ (forall text x y h font,
              Pdf.isLikelyHeading text x font
              && Pdf.isNewBlock (Pdf.lastLine st) y h = true ->
              exists below,
                Pdf.headingPath
                  (Pdf.elementStep st (Pdf.TextEl text x y h font))
                = below ++ [{| Pdf.hheight := h; Pdf.htext := trim text |}]
                /\ Forall (fun e => (h < Pdf.hheight e)%Q) below)).
Proof.
  split; [|split].
  - intros lines st.
    assert (Hs : increasingLevels (Structured.headingPath st))
      by (apply md_run_sorted; constructor).
    split; [exact Hs|]. split.
    + intros fuel lvl. apply popWhile_sorted, Hs.
    + intros line Hl. unfold Structured.mdStep.
      apply Nat.ltb_lt in Hl. rewrite Hl. simpl.
      rewrite processContentBlock_path.
      destruct (pushHeading_levels (Structured.getHeadingLevel line)
                  (Structured.headingTextOf line) Hs) as [b [Hb [Hall _]]].
      exists b. split; assumption.
  - intros els st.
    assert (Hs : increasingLevels (Docx.headingPath st))
      by (apply docx_run_sorted; constructor).
    split; [exact Hs|]. split.
    + intros fuel lvl. apply popWhile_sorted, Hs.
    + intros el lvl Hl Ht. unfold Docx.docxStep. rewrite Hl.
      destruct (trim (Docx.textContent el)) as [|c t] eqn:E; [congruence|].
      simpl.
      destruct (pushHeading_levels lvl (c :: t) Hs) as [b [Hb [Hall _]]].
      exists b. split; assumption.
  - intros els doses st.
    assert (Hs : decreasingHeights (Pdf.headingPath st))
      by (apply pdf_run_sorted; constructor).
    split; [exact Hs|]. split.
    + intros fuel h. apply popWhile_sorted, Hs.
    + intros text x y h font Hh. simpl. rewrite Hh. simpl.
      rewrite finalizeBlock_path.
      destruct (pushHeading_heights h (trim text) Hs) as [b [Hb [Hall _]]].
      exists b. split; assumption.
Qed.

Lemma heading_stack_invariant_witness :
  (exists below,
     Structured.headingPath
       (Structured.mdStep
          (fold_left Structured.mdStep [str "# A"; str "## B"; str "### C"]
             Structured.mdInit)
          (str "## D"))
     = below ++ [{| level := 2; htext := str "D" |}]
     /\ Forall (fun h => level h < 2) below)
  /\ (exists below,
        Docx.headingPath
          (Docx.docxStep
             (fold_left Docx.docxStep
                [Docx.Element (str "H2") [] [Docx.TextNode (str "Intro")]]
                Docx.docxInit)
             (Docx.Element (str "H1") [] [Docx.TextNode (str " Part ")]))
        = below ++ [{| level := 1; htext := str "Part" |}]
        /\ Forall (fun h => level h < 1) below)
  /\ (exists below,
        Pdf.headingPath
          (Pdf.elementStep
             (fold_left Pdf.elementStep
                [Pdf.TextEl (str "Chapter") 50 700 24 None]
                (Pdf.pageInit []))
             (Pdf.TextEl (str "Section") 50 600 18 None))
        = below ++ [{| Pdf.hheight := 18; Pdf.htext := str "Section" |}]
        /\ Forall (fun e => (18 < Pdf.hheight e)%Q) below).
Proof.
  destruct heading_stack_invariant as [Hmd [Hdocx Hpdf]].
  split; [|split].
  - destruct (Hmd [str "# A"; str "## B"; str "### C"]) as [_ [_ H]].
    apply (H (str "## D")). vm_compute. lia.
  - destruct (Hdocx
                [Docx.Element (str "H2") [] [Docx.TextNode (str "Intro")]])
      as [_ [_ H]].
    apply (H (Docx.Element (str "H1") [] [Docx.TextNode (str " Part ")]) 1).
    + reflexivity.
    + vm_compute. discriminate.
  - destruct (Hpdf [Pdf.TextEl (str "Chapter") 50 700 24 None] [])
      as [_ [_ H]].
    apply (H (str "Section") 50%Q 600%Q 18%Q None). reflexivity.
Defined.

(* ================================================================== *)
(** ** The operator interpreter of the PDF extractor                   *)
(* ================================================================== *)

(** C9. A restore executed while the matrix stack is empty leaves the
    stack empty, sets the current matrix to the identity
    [[1, 0, 0, 1, 0, 0]], touches neither the page elements nor the
    warnings, and the remaining operators are interpreted from that
    state. *)
Theorem restore_on_empty_stack (canvas : Pdf.Canvas)
  (objs : jsstring -> Pdf.Resolved) (pageNum : nat) (current : Pdf.Matrix)
  (els : list Pdf.PageElement) (ws : list jsstring)
  (ops : list Pdf.Operator) :
  let st := {| Pdf.matrixStack := []; Pdf.currentMatrix := current;
               Pdf.pageElements := els; Pdf.warnings := ws |} in
  let st' := {| Pdf.matrixStack := []; Pdf.currentMatrix := Pdf.identity;
                Pdf.pageElements := els; Pdf.warnings := ws |} in
  Pdf.opStep canvas objs pageNum st Pdf.OpRestore = st'
  /\ Pdf.identity
     = {| Pdf.m0 := 1; Pdf.m1 := 0; Pdf.m2 := 0;
          Pdf.m3 := 1; Pdf.m4 := 0; Pdf.m5 := 0 |}
  /\ Pdf.runOperators canvas objs pageNum (Pdf.OpRestore :: ops) st
     = Pdf.runOperators canvas objs pageNum ops st'.
Proof.
  repeat split.
Qed.

(** C5. When the raster of an image-paint operator is resolved, the canvas
    gives a 2D context and its pixel buffers, and the length of the raster
    data is none of 3, 4 or 1 bytes per pixel, the operator adds no page
    element, appends exactly one warning, which carries the page number and
    the colour space, leaves the matrices alone, and the remaining
    operators are interpreted from that state. *)
Theorem unsupported_image_layout (canvas : Pdf.Canvas)
  (objs : jsstring -> Pdf.Resolved) (pageNum : nat) (imgRef : jsstring)
  (img : Pdf.Image) (st : Pdf.OpState) (ops : list Pdf.Operator) :
  objs imgRef = Pdf.GetImage img ->
  Pdf.hasContext canvas = true ->
  Pdf.canAllocate canvas (Pdf.width img) (Pdf.height img) = true ->
  Z.of_nat (length (Pdf.data img)) <> (Pdf.width img * Pdf.height img * 3)%Z ->
  Z.of_nat (length (Pdf.data img)) <> (Pdf.width img * Pdf.height img * 4)%Z ->
  Z.of_nat (length (Pdf.data img)) <> (Pdf.width img * Pdf.height img)%Z ->
  let warning := Pdf.unsupportedWarning pageNum (Pdf.colorSpaceOf img) in
  let st' := {| Pdf.matrixStack := Pdf.matrixStack st;
                Pdf.currentMatrix := Pdf.currentMatrix st;
                Pdf.pageElements := Pdf.pageElements st;
                Pdf.warnings := Pdf.warnings st ++ [warning] |} in
  Pdf.opStep canvas objs pageNum st (Pdf.OpPaintImageXObject imgRef) = st'
  /\ (exists pre mid post,
        warning
        = pre ++ decimal pageNum ++ mid ++ Pdf.colorSpaceOf img ++ post)
  /\ Pdf.runOperators canvas objs pageNum
       (Pdf.OpPaintImageXObject imgRef :: ops) st
     = Pdf.runOperators canvas objs pageNum ops st'.
Proof.
  intros Hobj Hctx Halloc H3 H4 H1 warning st'.
  assert (Hstep : Pdf.opStep canvas objs pageNum st
                    (Pdf.OpPaintImageXObject imgRef) = st').
  { simpl. unfold Pdf.paintImage. rewrite Hobj, Hctx, Halloc.
    unfold Pdf.normalize.
    apply Z.eqb_neq in H3, H4, H1. rewrite H3, H4, H1. reflexivity. }
  split; [exact Hstep|]. split.
  - exists Pdf.imageWarningPrefix, (str ". O formato de cor (").
    eexists.
    unfold warning, Pdf.unsupportedWarning, Pdf.imageWarningHead.
    rewrite <- app_assoc. reflexivity.
  - unfold Pdf.runOperators. simpl fold_left.
    change (Pdf.paintImage canvas objs pageNum imgRef st)
      with (Pdf.opStep canvas objs pageNum st
              (Pdf.OpPaintImageXObject imgRef)).
    rewrite Hstep. reflexivity.
Qed.

Lemma unsupported_image_layout_witness :
  Pdf.opStep plainCanvas (fun _ => Pdf.GetImage twoBytesPerPixel) 3
    {| Pdf.matrixStack := []; Pdf.currentMatrix := Pdf.identity;
       Pdf.pageElements := []; Pdf.warnings := [] |}
    (Pdf.OpPaintImageXObject (str "img_p2_1"))
  = {| Pdf.matrixStack := []; Pdf.currentMatrix := Pdf.identity;
       Pdf.pageElements := [];
       Pdf.warnings :=
         [Pdf.unsupportedWarning 3 (str "DeviceGrayAlpha")] |}.
Proof.
  apply (unsupported_image_layout plainCanvas
           (fun _ => Pdf.GetImage twoBytesPerPixel) 3 (str "img_p2_1")
           (img := twoBytesPerPixel)
           {| Pdf.matrixStack := []; Pdf.currentMatrix := Pdf.identity;
              Pdf.pageElements := []; Pdf.warnings := [] |} []);
    try reflexivity; simpl; lia.
Defined.

(* ================================================================== *)
(** ** The DOCX adapter                                                *)
(* ================================================================== *)

(** C10. A heading element whose text trims to the empty string changes
    nothing: the state after it (doses and heading stack) is the state
    before it, so the elements that follow are processed as if it were not
    there. *)
Theorem docx_empty_heading (st : Docx.DocxState) (el : Docx.Node)
  (lvl : nat) (rest : list Docx.Node) :
  Docx.headingLevelOfTag (Docx.toUpperCase (Docx.tagNameOf el)) = Some lvl ->
  trim (Docx.textContent el) = [] ->
  Docx.docxStep st el = st
  /\ fold_left Docx.docxStep (el :: rest) st
     = fold_left Docx.docxStep rest st.
Proof.
  intros Hl Ht.
  assert (H : Docx.docxStep st el = st).
  { unfold Docx.docxStep. rewrite Hl, Ht. reflexivity. }
  split; [exact H|]. simpl. rewrite H. reflexivity.
Qed.

Lemma docx_empty_heading_witness :
  Docx.docxStep
    {| Docx.doses := [];
       Docx.headingPath := [{| level := 1; htext := str "A" |}] |}
    (Docx.Element (str "h2") [] [Docx.TextNode (str "  ")])
  = {| Docx.doses := [];
       Docx.headingPath := [{| level := 1; htext := str "A" |}] |}.
Proof.
  apply (docx_empty_heading
           {| Docx.doses := [];
              Docx.headingPath := [{| level := 1; htext := str "A" |}] |}
           (Docx.Element (str "h2") [] [Docx.TextNode (str "  ")])
           (lvl := 2) []); reflexivity.
Defined.

Lemma forallb_false_char (p : char -> bool) (s : jsstring) :
  forallb p s = false -> exists c, In c s /\ p c = false.
Proof.
  induction s as [|a r IH]; simpl; [discriminate|].
  destruct (p a) eqn:Ha; simpl.
  - intros H. destruct (IH H) as [c [Hc Hp]]. exists c. auto.
  - intros _. exists a. auto.
Qed.

Lemma dropWhile_keeps (p : char -> bool) (s : jsstring) (c : char) :
  In c s -> p c = false -> In c (dropWhile p s).
Proof.
  induction s as [|a r IH]; simpl; [tauto|].
  intros [->|Hin] Hp.
  - rewrite Hp. left. reflexivity.
  - destruct (p a); [apply IH; assumption|right; assumption].
Qed.

Lemma trim_keeps (s : jsstring) (c : char) :
  In c s -> isWhiteSpace c = false -> In c (trim s).
Proof.
  intros Hin Hc. unfold trim, trimEnd, trimStart.
  apply -> in_rev. apply dropWhile_keeps; [|exact Hc].
  apply -> in_rev. apply dropWhile_keeps; assumption.
Qed.

Lemma trim_nonempty_char (s : jsstring) :
  trim s <> [] -> exists c, In c s /\ isWhiteSpace c = false.
Proof.
  intros H. destruct (forallb isWhiteSpace s) eqn:E.
  - elim H. apply trim_blank, E.
  - apply forallb_false_char, E.
Qed.

(** A character that is not a line feed ends up in one of the pieces of
    [split('\n\n')]. *)
Lemma splitLFLF_covers (n : nat) :
  forall (s cur : jsstring) (c : char),
    length s <= n -> char_eqb c LF = false ->
    In c cur \/ In c s ->
    exists piece, In piece (splitLFLF_aux cur s) /\ In c piece.
Proof.
  induction n as [|n IH]; intros s cur c Hlen Hc Hin.
  - destruct s; [|simpl in Hlen; lia]. simpl.
    exists (rev cur). split; [left; reflexivity|].
    apply -> in_rev. destruct Hin as [H|[]]; exact H.
  - destruct s as [|a r]; simpl.
    + exists (rev cur). split; [left; reflexivity|].
      apply -> in_rev. destruct Hin as [H|[]]; exact H.
    + destruct r as [|d r'].
      * exists (rev (a :: cur)). split; [left; reflexivity|].
        apply -> in_rev. simpl. destruct Hin as [H|[H|[]]]; auto.
      * destruct (char_eqb a LF && char_eqb d LF) eqn:E.
        -- apply andb_true_iff in E as [Ea Ed].
           apply N.eqb_eq in Ea, Ed. subst a d.
           destruct Hin as [H|[H|[H|H]]].
           ++ exists (rev cur). split; [left; reflexivity|].
              apply -> in_rev. exact H.
           ++ subst c. discriminate Hc.
           ++ subst c. discriminate Hc.
           ++ destruct (IH r' [] c) as [piece [Hp Hcp]];
                [simpl in Hlen; lia|exact Hc|right; exact H|].
              exists piece. split; [right; exact Hp|exact Hcp].
        -- apply IH; [simpl in *; lia|exact Hc|].
           destruct Hin as [H|[H|H]]; simpl; auto.
Qed.

Lemma rawTextDoses_nonempty (bodyNodes : list Docx.Node) :
  trim (concat (map Docx.textContent bodyNodes)) <> [] ->
  Docx.rawTextDoses bodyNodes <> [].
Proof.
  intros H. apply trim_nonempty_char in H as [c [Hin Hc]].
  assert (Hlf : char_eqb c LF = false).
  { destruct (char_eqb c LF) eqn:E; [|reflexivity].
    apply N.eqb_eq in E. subst c. discriminate Hc. }
  destruct (@splitLFLF_covers _ (concat (map Docx.textContent bodyNodes))
              [] c (le_n _) Hlf (or_intror Hin))
    as [piece [Hp Hcp]].
  unfold Docx.rawTextDoses. intros Hnil.
  assert (Hf : In piece
                 (filter (fun p => truthy (trim p))
                    (splitLFLF (concat (map Docx.textContent bodyNodes))))).
  { apply filter_In. split; [exact Hp|].
    pose proof (trim_keeps piece c Hcp Hc) as Hk.
    destruct (trim piece); [destruct Hk|reflexivity]. }
  rewrite Hnil in Hf. destruct Hf.
Qed.

(** C6 as the specification states it fails: a document with one heading
    and a warning of the converter has no structured dose and a non-empty
    raw text, and yet the raw text is not returned and no warning about the
    missing structure is given. *)
Lemma docx_no_fallback_with_warning :
  Docx.doses (Docx.walk headingOnlyBody) = []
  /\ trim (concat (map Docx.textContent headingOnlyBody)) = str "Title"
  /\ Docx.extractTextFromDocx (Docx.Html [styleWarning] headingOnlyBody)
     = ([], [Docx.message styleWarning])
  /\ Docx.extractTextFromDocx (Docx.Html [styleWarning] headingOnlyBody)
     <> (Docx.rawTextDoses headingOnlyBody,
         [Docx.message styleWarning; Docx.noStructureWarning]).
Proof.
  repeat split; try reflexivity.
  vm_compute. discriminate.
Qed.

(** C6, amended. When the structured walk yields no dose, the converter
    reported no warning and the raw text of the body is not blank, the
    adapter returns the non-blank pieces of the raw text split at double
    line feeds, of which there is at least one, with the single warning
    that no clear structure was identified. *)
Theorem docx_fallback (messages : list Docx.Message)
  (bodyNodes : list Docx.Node) :
  Docx.doses (Docx.walk bodyNodes) = [] ->
  filter (fun msg => jsstring_eqb (Docx.mtype msg) (str "warning")) messages
  = [] ->
  trim (concat (map Docx.textContent bodyNodes)) <> [] ->
  Docx.extractTextFromDocx (Docx.Html messages bodyNodes)
  = (Docx.rawTextDoses bodyNodes, [Docx.noStructureWarning])
  /\ Docx.rawTextDoses bodyNodes <> []
  /\ Forall (fun dose => trim dose <> []) (Docx.rawTextDoses bodyNodes).
Proof.
  intros Hd Hw Ht.
  pose proof (rawTextDoses_nonempty bodyNodes Ht) as Hraw.
  split; [|split; [exact Hraw|]].
  - unfold Docx.extractTextFromDocx. rewrite Hd, Hw. simpl map.
    destruct (trim (concat (map Docx.textContent bodyNodes)));
      [congruence|]. simpl truthy. cbv iota.
    destruct (Docx.rawTextDoses bodyNodes); [congruence|reflexivity].
  - apply Forall_forall. intros dose Hin.
    unfold Docx.rawTextDoses in Hin. apply filter_In in Hin as [_ Hdose].
    destruct (trim dose); [discriminate|discriminate].
Qed.

Lemma docx_fallback_witness :
  Docx.extractTextFromDocx (Docx.Html [] headingOnlyBody)
  = ([str "Title"], [Docx.noStructureWarning]).
Proof.
  apply (docx_fallback [] headingOnlyBody);
    [reflexivity|reflexivity|vm_compute; discriminate].
Defined.

(* ================================================================== *)
(** ** Pages of a PDF are decomposed independently                     *)
(* ================================================================== *)

Lemma finalizeBlock_prepend (d : list jsstring) (st : Pdf.BlockState) :
  Pdf.finalizeBlock (prependDoses d st)
  = prependDoses d (Pdf.finalizeBlock st).
Proof.
  destruct st as [ds hp [|l ls] last]; unfold Pdf.finalizeBlock, prependDoses;
    simpl; [reflexivity|].
  destruct (truthy _); [rewrite app_assoc|]; reflexivity.
Qed.

Lemma elementStep_prepend (d : list jsstring) (st : Pdf.BlockState)
  (el : Pdf.PageElement) :
  Pdf.elementStep (prependDoses d st) el
  = prependDoses d (Pdf.elementStep st el).
Proof.
  destruct el as [text x y h font|url y w h]; simpl.
  - destruct (Pdf.isLikelyHeading text x font
              && Pdf.isNewBlock (Pdf.lastLine st) y h).
    + rewrite finalizeBlock_prepend. reflexivity.
    + destruct (Pdf.isNewBlock (Pdf.lastLine st) y h);
        [rewrite finalizeBlock_prepend|]; reflexivity.
  - rewrite finalizeBlock_prepend. unfold prependDoses. simpl.
    rewrite app_assoc. reflexivity.
Qed.

Lemma runElements_prepend (d : list jsstring) (els : list Pdf.PageElement)
  (st : Pdf.BlockState) :
  Pdf.runElements els (prependDoses d st)
  = prependDoses d (Pdf.runElements els st).
Proof.
  unfold Pdf.runElements. revert st.
  induction els as [|e es IH]; intros st; simpl.
  - apply finalizeBlock_prepend.
  - rewrite elementStep_prepend. apply IH.
Qed.

Lemma opStep_geometry (canvas : Pdf.Canvas) (objs : jsstring -> Pdf.Resolved)
  (n n' : nat) (a b : Pdf.OpState) (op : Pdf.Operator) :
  sameGeometry a b ->
  sameGeometry (Pdf.opStep canvas objs n a op)
    (Pdf.opStep canvas objs n' b op).
Proof.
  intros [Hs [Hc He]]. unfold sameGeometry.
  destruct op as [| |args|imgRef|]; simpl; rewrite ?Hs, ?Hc, ?He; auto.
  unfold Pdf.paintImage.
  destruct (objs imgRef) as [| |img]; simpl; auto.
  destruct (Pdf.hasContext canvas); simpl; auto.
  destruct (Pdf.canAllocate canvas _ _); simpl; auto.
  destruct (Pdf.normalize img); simpl; rewrite ?Hc, ?He; auto.
Qed.

Lemma runOperators_geometry (canvas : Pdf.Canvas)
  (objs : jsstring -> Pdf.Resolved) (n n' : nat) (ops : list Pdf.Operator) :
  forall a b, sameGeometry a b ->
    sameGeometry (Pdf.runOperators canvas objs n ops a)
      (Pdf.runOperators canvas objs n' ops b).
Proof.
  unfold Pdf.runOperators.
  induction ops as [|op ops IH]; intros a b H; simpl; [exact H|].
  apply IH, opStep_geometry, H.
Qed.

(** The doses a page adds do not depend on the doses and warnings gathered
    before it, nor on its number. *)
Lemma pageStep_doses (canvas : Pdf.Canvas) (n n' : nat)
  (page : option Pdf.Page) (d w w' : list jsstring) :
  fst (Pdf.pageStep canvas n page (d, w))
  = d ++ fst (Pdf.pageStep canvas n' page ([], w')).
Proof.
  destruct page as [pg|]; simpl; [|symmetry; apply app_nil_r].
  assert (Hg : sameGeometry (Pdf.pageOps canvas n pg w)
                 (Pdf.pageOps canvas n' pg w')).
  { unfold Pdf.pageOps. apply runOperators_geometry.
    unfold sameGeometry. simpl. auto. }
  destruct Hg as [_ [_ He]]. rewrite He.
  replace (Pdf.pageInit d) with (prependDoses d (Pdf.pageInit []))
    by (unfold prependDoses, Pdf.pageInit; simpl; rewrite app_nil_r;
        reflexivity).
  rewrite runElements_prepend. reflexivity.
Qed.

Lemma pagesFrom_doses (canvas : Pdf.Canvas) (pages : list (option Pdf.Page)) :
  forall (n n' : nat) (d w w' : list jsstring),
    fst (Pdf.pagesFrom canvas n pages (d, w))
    = d ++ fst (Pdf.pagesFrom canvas n' pages ([], w')).
Proof.
  induction pages as [|p rest IH]; intros n n' d w w'; cbn [Pdf.pagesFrom].
  - symmetry. apply app_nil_r.
  - pose proof (pageStep_doses canvas n n' p d w w') as Hp.
    destruct (Pdf.pageStep canvas n p (d, w)) as [d1 w1].
    destruct (Pdf.pageStep canvas n' p ([], w')) as [e w2].
    simpl in Hp. subst d1.
    rewrite (IH (S n) (S n') (d ++ e) w1 w2).
    rewrite (IH (S n') (S n') e w2 w2).
    symmetry. apply app_assoc.
Qed.

Lemma pagesFrom_app (canvas : Pdf.Canvas) (a b : list (option Pdf.Page)) :
  forall (n : nat) (acc : list jsstring * list jsstring),
    Pdf.pagesFrom canvas n (a ++ b) acc
    = Pdf.pagesFrom canvas (n + length a) b (Pdf.pagesFrom canvas n a acc).
Proof.
  induction a as [|p a IH]; intros n acc; simpl.
  - rewrite Nat.add_0_r. reflexivity.
  - rewrite IH. f_equal. lia.
Qed.

(** C1 as the specification states it fails: with a heading alone on page 1
    and a sentence alone on page 2, the dose of page 2 is the bare sentence,
    without the heading of page 1 as breadcrumb; the same two lines on one
    page do give the breadcrumb. *)
Lemma heading_lost_at_page_break :
  Pdf.extractTextFromPdf plainCanvas [pageOf [chapterLine]; pageOf [bodyLine]]
  = ([str "This text opens the second page."], [])
  /\ Pdf.extractTextFromPdf plainCanvas
       [pageOf [chapterLine]; pageOf [bodyLine]]
     <> ([str "Chapter One" ++ lf ++ lf
          ++ str "This text opens the second page."], [])
  /\ Pdf.extractTextFromPdf plainCanvas [pageOf [chapterLine; bodyLine]]
     = ([str "Chapter One" ++ lf ++ lf
         ++ str "This text opens the second page."], []).
Proof.
  split; [|split].
  - vm_compute. reflexivity.
  - vm_compute. discriminate.
  - vm_compute. reflexivity.
Qed.

(** C1, amended. The heading stack is created anew for every page: step 4
    of each page starts from an empty heading stack, a block finalised
    under an empty stack is emitted without breadcrumb, and therefore the
    doses of a page are those the page gives on its own, whatever the pages
    before it contain. *)
Theorem pdf_heading_stack_per_page (canvas : Pdf.Canvas)
  (before : list (option Pdf.Page)) (page : option Pdf.Page) :
  fst (Pdf.extractTextFromPdf canvas (before ++ [page]))
  = fst (Pdf.extractTextFromPdf canvas before)
    ++ fst (Pdf.extractTextFromPdf canvas [page])
  /\ (forall doses, Pdf.headingPath (Pdf.pageInit doses) = [])
  /\ (forall body, Pdf.withBreadcrumb [] body = body).
Proof.
  split; [|split; reflexivity].
  unfold Pdf.extractTextFromPdf.
  rewrite pagesFrom_app.
  destruct (Pdf.pagesFrom canvas 1 before ([], [])) as [d w].
  apply pagesFrom_doses.
Qed.

(* ================================================================== *)
(** ** Block finalisation: prose folding and hyphenation repair        *)
(* ================================================================== *)

Lemma dropWhile_head (s : jsstring) :
  startsWithWS (dropWhile isWhiteSpace s) = false.
Proof.
  induction s as [|c r IH]; simpl; [reflexivity|].
  destruct (isWhiteSpace c) eqn:E; [exact IH|]. simpl. exact E.
Qed.

Lemma dropWhile_suffix (p : char -> bool) (s : jsstring) :
  exists pre, s = pre ++ dropWhile p s.
Proof.
  induction s as [|c r [pre IH]]; simpl; [exists []; reflexivity|].
  destruct (p c); [|exists []; reflexivity].
  exists (c :: pre). simpl. rewrite <- IH. reflexivity.
Qed.

Lemma dropWhile_id (s : jsstring) :
  startsWithWS s = false -> dropWhile isWhiteSpace s = s.
Proof.
  destruct s as [|c r]; simpl; [reflexivity|]. intros ->. reflexivity.
Qed.

Lemma startsWithWS_app (a b : jsstring) :
  a <> [] -> startsWithWS (a ++ b) = startsWithWS a.
Proof.
  destruct a; [congruence|reflexivity].
Qed.

Lemma trim_Trimmed (s : jsstring) : Trimmed (trim s).
Proof.
  unfold Trimmed, trim, trimEnd, trimStart. split.
  - pose proof (dropWhile_head s) as Hhead.
    set (t := dropWhile isWhiteSpace s) in *.
    destruct (dropWhile_suffix isWhiteSpace (rev t)) as [pre Hpre].
    apply (f_equal (@rev char)) in Hpre.
    rewrite rev_involutive, rev_app_distr in Hpre.
    destruct (rev (dropWhile isWhiteSpace (rev t))) as [|c r];
      [reflexivity|].
    rewrite Hpre in Hhead. exact Hhead.
  - rewrite rev_involutive. apply dropWhile_head.
Qed.

Lemma Trimmed_trim (s : jsstring) : Trimmed s -> trim s = s.
Proof.
  intros [Hs He]. unfold trim, trimEnd, trimStart.
  rewrite (dropWhile_id _ Hs), (dropWhile_id _ He). apply rev_involutive.
Qed.

Lemma Trimmed_join (a b : jsstring) :
  a <> [] -> b <> [] -> startsWithWS a = false ->
  startsWithWS (rev b) = false -> Trimmed (a ++ b).
Proof.
  intros Ha Hb Hsa Heb. split.
  - rewrite startsWithWS_app; assumption.
  - rewrite rev_app_distr, startsWithWS_app; [assumption|].
    intros H. apply (f_equal (@rev char)) in H.
    rewrite rev_involutive in H. exact (Hb H).
Qed.

Lemma dropLast_head (s : jsstring) :
  startsWithWS s = false -> startsWithWS (dropLast s) = false.
Proof.
  destruct s as [|c [|c' r]]; simpl; auto.
Qed.

(** One step of the fold keeps the accumulated paragraph trimmed and not
    empty, when the line is not blank. *)
Lemma foldLine_Trimmed (acc line : jsstring) :
  Trimmed acc -> trim line <> [] ->
  Trimmed (Pdf.foldLine acc line) /\ Pdf.foldLine acc line <> [].
Proof.
  intros Hacc Hline. unfold Pdf.foldLine.
  rewrite (Trimmed_trim Hacc).
  destruct (trim_Trimmed line) as [Hls Hle].
  assert (Hcat : forall a, startsWithWS a = false ->
                   Trimmed (a ++ trim line) /\ a ++ trim line <> []).
  { intros a Ha. split.
    - destruct a as [|c r]; [split; assumption|].
      apply Trimmed_join; [discriminate|assumption|assumption|assumption].
    - intros H. apply app_eq_nil in H as [_ H]. exact (Hline H). }
  destruct (endsWithHyphen acc).
  - apply Hcat, dropLast_head, Hacc.
  - destruct acc as [|c r]; [split; [split|]; assumption|].
    rewrite app_assoc. apply Hcat.
    rewrite startsWithWS_app; [apply Hacc|discriminate].
Qed.

Lemma fold_Trimmed (ls : list jsstring) :
  forall acc, Trimmed acc -> Forall (fun l => trim l <> []) ls ->
    Trimmed (fold_left Pdf.foldLine ls acc)
    /\ (ls <> [] \/ acc <> [] -> fold_left Pdf.foldLine ls acc <> []).
Proof.
  induction ls as [|l ls IH]; intros acc Hacc Hall; simpl.
  - split; [exact Hacc|]. intros [H|H]; congruence.
  - inversion Hall as [|? ? Hl Hls]; subst.
    destruct (@foldLine_Trimmed _ _ Hacc Hl) as [Ht Hne].
    destruct (IH _ Ht Hls) as [Ht' Hne'].
    split; [exact Ht'|]. intros _. apply Hne'. right. exact Hne.
Qed.

(** C7. In a block that is not a list, the text is the fold of the prose
    lines: one line gives its trimmed text, and a further non-blank line
    is appended after a single space, unless the paragraph so far ends in
    a hyphen, in which case the hyphen is dropped and the trimmed line is
    appended directly.  The lines [exam-] and [ple text] give
    [example text]. *)
Theorem hyphenation_repair (ls : list jsstring) (l : jsstring) :
  ls <> [] -> Forall (fun x => trim x <> []) ls -> trim l <> [] ->
  Pdf.proseText (ls ++ [l])
  = (if endsWithHyphen (Pdf.proseText ls)
     then dropLast (Pdf.proseText ls) ++ trim l
     else Pdf.proseText ls ++ str " " ++ trim l)
  /\ Pdf.proseText [l] = trim l
  /\ (Pdf.isList (ls ++ [l]) = false ->
      Pdf.contentTextOf (ls ++ [l]) = Pdf.proseText (ls ++ [l]))
  /\ Pdf.isList [str "exam-"; str "ple text"] = false
  /\ Pdf.contentTextOf [str "exam-"; str "ple text"] = str "example text"
  /\ Pdf.doses
       (Pdf.finalizeBlock
          {| Pdf.doses := []; Pdf.headingPath := [];
             Pdf.currentBlockLines := [str "exam-"; str "ple text"];
             Pdf.lastLine := None |})
     = [str "example text"].
Proof.
  intros Hne Hall Hl.
  assert (Hnil : Trimmed []) by (split; reflexivity).
  destruct (@fold_Trimmed _ _ Hnil Hall) as [Ht Hacc].
  specialize (Hacc (or_introl Hne)).
  split; [|split; [|split; [|repeat split]]].
  - unfold Pdf.proseText. rewrite fold_left_app. cbn [fold_left].
    rewrite (Trimmed_trim Ht).
    destruct (@foldLine_Trimmed _ _ Ht Hl) as [Ht' _].
    rewrite (Trimmed_trim Ht').
    unfold Pdf.foldLine at 1. rewrite (Trimmed_trim Ht).
    destruct (endsWithHyphen _); [reflexivity|].
    destruct (fold_left Pdf.foldLine ls []); [congruence|reflexivity].
  - unfold Pdf.proseText. cbn [fold_left].
    destruct (@foldLine_Trimmed _ _ Hnil Hl) as [Ht' _].
    rewrite (Trimmed_trim Ht'). reflexivity.
  - intros Hlist. unfold Pdf.contentTextOf. rewrite Hlist. reflexivity.
Qed.

Lemma hyphenation_repair_witness :
  Pdf.proseText ([str "exam-"] ++ [str "ple text"]) = str "example text".
Proof.
  refine (eq_trans
            (proj1 (@hyphenation_repair [str "exam-"] (str "ple text")
                      _ _ _)) _).
  - discriminate.
  - constructor; [vm_compute; discriminate|constructor].
  - vm_compute. discriminate.
  - reflexivity.
Defined.

(* ================================================================== *)
(** ** Further properties of the PDF extractor                         *)
(* ================================================================== *)

(** X1. A page whose retrieval fails is skipped: the doses of the document
    are those of the document without that page, and the failure appends
    exactly one warning, which carries the number of the page. *)
Theorem pdf_failed_page_isolated (canvas : Pdf.Canvas)
  (before after : list (option Pdf.Page)) :
  fst (Pdf.extractTextFromPdf canvas (before ++ None :: after))
  = fst (Pdf.extractTextFromPdf canvas (before ++ after))
  /\ Pdf.extractTextFromPdf canvas (before ++ [None])
     = (fst (Pdf.extractTextFromPdf canvas before),
        snd (Pdf.extractTextFromPdf canvas before)
        ++ [Pdf.pageWarning (S (length before))]).
Proof.
  unfold Pdf.extractTextFromPdf. rewrite !pagesFrom_app.
  destruct (Pdf.pagesFrom canvas 1 before ([], [])) as [d w].
  split.
  - cbn [Pdf.pagesFrom Pdf.pageStep].
    rewrite (pagesFrom_doses canvas after (S (1 + length before))
               (1 + length before) d
               (w ++ [Pdf.pageWarning (1 + length before)]) w).
    rewrite (pagesFrom_doses canvas after (1 + length before)
               (1 + length before) d w w).
    reflexivity.
  - reflexivity.
Qed.

Lemma runOperators_app (canvas : Pdf.Canvas)
  (objs : jsstring -> Pdf.Resolved) (n : nat) (a b : list Pdf.Operator)
  (st : Pdf.OpState) :
  Pdf.runOperators canvas objs n (a ++ b) st
  = Pdf.runOperators canvas objs n b (Pdf.runOperators canvas objs n a st).
Proof.
  unfold Pdf.runOperators. apply fold_left_app.
Qed.

Lemma paintImage_matrices (canvas : Pdf.Canvas)
  (objs : jsstring -> Pdf.Resolved) (n : nat) (imgRef : jsstring)
  (st : Pdf.OpState) :
  Pdf.matrixStack (Pdf.paintImage canvas objs n imgRef st)
  = Pdf.matrixStack st
  /\ Pdf.currentMatrix (Pdf.paintImage canvas objs n imgRef st)
     = Pdf.currentMatrix st.
Proof.
  unfold Pdf.paintImage.
  destruct (objs imgRef) as [| |img]; simpl; auto.
  destruct (Pdf.hasContext canvas); simpl; auto.
  destruct (Pdf.canAllocate canvas _ _); simpl; auto.
  destruct (Pdf.normalize img); simpl; auto.
Qed.

(** A balanced sequence leaves the matrix stack as it found it. *)
Lemma balanced_stack (canvas : Pdf.Canvas) (objs : jsstring -> Pdf.Resolved)
  (n : nat) (ops : list Pdf.Operator) :
  Balanced ops ->
  forall st,
    Pdf.matrixStack (Pdf.runOperators canvas objs n ops st)
    = Pdf.matrixStack st.
Proof.
  induction 1 as [|args ops _ IH|imgRef ops _ IH|ops _ IH
                  |inner ops _ IHi _ IHo]; intros st.
  - reflexivity.
  - change (Pdf.runOperators canvas objs n (Pdf.OpTransform args :: ops) st)
      with (Pdf.runOperators canvas objs n ops
              (Pdf.opStep canvas objs n st (Pdf.OpTransform args))).
    rewrite IH. reflexivity.
  - change (Pdf.runOperators canvas objs n
              (Pdf.OpPaintImageXObject imgRef :: ops) st)
      with (Pdf.runOperators canvas objs n ops
              (Pdf.paintImage canvas objs n imgRef st)).
    rewrite IH. apply paintImage_matrices.
  - change (Pdf.runOperators canvas objs n (Pdf.OpOther :: ops) st)
      with (Pdf.runOperators canvas objs n ops st).
    apply IH.
  - change (Pdf.OpSave :: inner ++ Pdf.OpRestore :: ops)
      with ([Pdf.OpSave] ++ inner ++ [Pdf.OpRestore] ++ ops).
    rewrite !runOperators_app, IHo.
    unfold Pdf.runOperators at 1. simpl fold_left at 1.
    cbn [Pdf.opStep Pdf.matrixStack].
    rewrite IHi. simpl. apply removelast_last.
Qed.

(** X2. A [save], a balanced sequence of operators and a [restore] leave
    the matrix stack and the current matrix as they were: the transforms
    made inside the group do not reach the images painted after it. *)
Theorem save_restore_group (canvas : Pdf.Canvas)
  (objs : jsstring -> Pdf.Resolved) (n : nat) (inner : list Pdf.Operator)
  (st : Pdf.OpState) :
  Balanced inner ->
  let st' :=
    Pdf.runOperators canvas objs n
      (Pdf.OpSave :: inner ++ [Pdf.OpRestore]) st in
  Pdf.matrixStack st' = Pdf.matrixStack st
  /\ Pdf.currentMatrix st' = Pdf.currentMatrix st.
Proof.
  intros Hb st'. subst st'.
  change (Pdf.OpSave :: inner ++ [Pdf.OpRestore])
    with ([Pdf.OpSave] ++ inner ++ [Pdf.OpRestore]).
  rewrite !runOperators_app.
  unfold Pdf.runOperators at 1. simpl fold_left at 1.
  cbn [Pdf.opStep Pdf.matrixStack Pdf.currentMatrix].
  rewrite (balanced_stack canvas objs n Hb). simpl.
  rewrite (balanced_stack canvas objs n Hb). simpl.
  rewrite removelast_last, rev_app_distr. simpl. auto.
Qed.

Lemma save_restore_group_witness :
  Pdf.currentMatrix
    (Pdf.runOperators plainCanvas (fun _ => Pdf.GetNothing) 1
       (Pdf.OpSave
        :: [Pdf.OpTransform
              {| Pdf.m0 := 2; Pdf.m1 := 0; Pdf.m2 := 0;
                 Pdf.m3 := 2; Pdf.m4 := 10; Pdf.m5 := 20 |};
            Pdf.OpPaintImageXObject (str "img")] ++ [Pdf.OpRestore])
       {| Pdf.matrixStack := []; Pdf.currentMatrix := Pdf.identity;
          Pdf.pageElements := []; Pdf.warnings := [] |})
  = Pdf.identity.
Proof.
  apply (@save_restore_group plainCanvas (fun _ => Pdf.GetNothing) 1
           [Pdf.OpTransform
              {| Pdf.m0 := 2; Pdf.m1 := 0; Pdf.m2 := 0;
                 Pdf.m3 := 2; Pdf.m4 := 10; Pdf.m5 := 20 |};
            Pdf.OpPaintImageXObject (str "img")]
           {| Pdf.matrixStack := []; Pdf.currentMatrix := Pdf.identity;
              Pdf.pageElements := []; Pdf.warnings := [] |}).
  repeat constructor.
Defined.

Lemma rgbToRgba_pixels (m : nat) :
  forall data, length data = 3 * m ->
    length (Pdf.rgbToRgba data) = 4 * m
    /\ forall k, k < m ->
         nth (4 * k) (Pdf.rgbToRgba data) 0%N = nth (3 * k) data 0%N
         /\ nth (4 * k + 1) (Pdf.rgbToRgba data) 0%N
            = nth (3 * k + 1) data 0%N
         /\ nth (4 * k + 2) (Pdf.rgbToRgba data) 0%N
            = nth (3 * k + 2) data 0%N
         /\ nth (4 * k + 3) (Pdf.rgbToRgba data) 0%N = 255%N.
Proof.
  induction m as [|m IH]; intros data Hlen.
  - destruct data; [|simpl in Hlen; lia]. split; [reflexivity|]. lia.
  - destruct data as [|r [|g [|b rest]]]; try (simpl in Hlen; lia).
    assert (Hrest : length rest = 3 * m) by (simpl in Hlen; lia).
    destruct (IH rest Hrest) as [Hl Hpix].
    split; [simpl; rewrite Hl; lia|].
    intros [|k] Hk.
    + repeat split.
    + replace (4 * S k) with (S (S (S (S (4 * k))))) by lia.
      replace (3 * S k) with (S (S (S (3 * k)))) by lia.
      destruct (Hpix k) as [H0 [H1 [H2 H3]]]; [lia|].
      cbn [Pdf.rgbToRgba nth Nat.add]. auto.
Qed.

Lemma grayToRgba_pixels (data : list N) :
  length (Pdf.grayToRgba data) = 4 * length data
  /\ forall k, k < length data ->
       nth (4 * k) (Pdf.grayToRgba data) 0%N = nth k data 0%N
       /\ nth (4 * k + 1) (Pdf.grayToRgba data) 0%N = nth k data 0%N
       /\ nth (4 * k + 2) (Pdf.grayToRgba data) 0%N = nth k data 0%N
       /\ nth (4 * k + 3) (Pdf.grayToRgba data) 0%N = 255%N.
Proof.
  induction data as [|g rest [Hl Hpix]].
  - split; [reflexivity|]. simpl. lia.
  - split; [unfold Pdf.grayToRgba in *; simpl; rewrite Hl; simpl; lia|].
    intros [|k] Hk.
    + repeat split.
    + replace (4 * S k) with (S (S (S (S (4 * k))))) by lia.
      destruct (Hpix k) as [H0 [H1 [H2 H3]]]; [simpl in Hk; lia|].
      unfold Pdf.grayToRgba in *. cbn [flat_map app nth Nat.add]. auto.
Qed.

(** X3. When the byte layout is supported the pixels put on the canvas are
    RGBA, four bytes for each of the [width * height] pixels: RGB data are
    copied channel by channel with an alpha of 255, RGBA data are passed
    through, and a grey value is copied into the three colour channels with
    an alpha of 255. *)
Theorem normalize_rgba (img : Pdf.Image) (rgba : list N) :
  Pdf.normalize img = Some rgba ->
  let len := Z.of_nat (length (Pdf.data img)) in
  let wh := (Pdf.width img * Pdf.height img)%Z in
  Z.of_nat (length rgba) = (4 * wh)%Z
  /\ (len = (wh * 3)%Z ->
      forall k, (Z.of_nat k < wh)%Z ->
        nth (4 * k) rgba 0%N = nth (3 * k) (Pdf.data img) 0%N
        /\ nth (4 * k + 1) rgba 0%N = nth (3 * k + 1) (Pdf.data img) 0%N
        /\ nth (4 * k + 2) rgba 0%N = nth (3 * k + 2) (Pdf.data img) 0%N
        /\ nth (4 * k + 3) rgba 0%N = 255%N)
  /\ (len <> (wh * 3)%Z -> len = (wh * 4)%Z -> rgba = Pdf.data img)
  /\ (len <> (wh * 3)%Z -> len <> (wh * 4)%Z ->
      forall k, (Z.of_nat k < wh)%Z ->
        nth (4 * k) rgba 0%N = nth k (Pdf.data img) 0%N
        /\ nth (4 * k + 1) rgba 0%N = nth k (Pdf.data img) 0%N
        /\ nth (4 * k + 2) rgba 0%N = nth k (Pdf.data img) 0%N
        /\ nth (4 * k + 3) rgba 0%N = 255%N).
Proof.
  intros H len wh. unfold Pdf.normalize in H. fold len wh in H.
  destruct (Z.eqb_spec len (wh * 3)) as [E3|N3].
  - inversion H; subst rgba; clear H.
    destruct (@rgbToRgba_pixels (Z.to_nat wh) (Pdf.data img)) as [Hl Hpix];
      [unfold len in E3; lia|].
    split; [rewrite Hl; lia|]. split; [|split; intros; lia].
    intros _ k Hk. apply Hpix. lia.
  - destruct (Z.eqb_spec len (wh * 4)) as [E4|N4].
    + inversion H; subst rgba; clear H.
      split; [fold len; lia|]. split; [intros; lia|].
      split; [reflexivity|intros; lia].
    + destruct (Z.eqb_spec len wh) as [E1|N1]; [|discriminate].
      inversion H; subst rgba; clear H.
      destruct (grayToRgba_pixels (Pdf.data img)) as [Hl Hpix].
      split; [rewrite Hl; unfold len in E1; lia|].
      split; [intros; lia|]. split; [intros; lia|].
      intros _ _ k Hk. apply Hpix. unfold len in E1. lia.
Qed.

Lemma normalize_rgba_witness :
  Z.of_nat (length [1; 2; 3; 255; 4; 5; 6; 255]%N) = (4 * (2 * 1))%Z.
Proof.
  apply (@normalize_rgba
           {| Pdf.width := 2; Pdf.height := 1;
              Pdf.data := [1; 2; 3; 4; 5; 6]%N;
              Pdf.colorspaceName := None |}
           [1; 2; 3; 255; 4; 5; 6; 255]%N).
  reflexivity.
Defined.

Lemma linesMapAdd_keys (y : Z) (item : Pdf.TextItem)
  (m : list (Z * list Pdf.TextItem)) :
  (forall k, In k (map fst (Pdf.linesMapAdd y item m))
             <-> k = y \/ In k (map fst m))
  /\ (NoDup (map fst m) -> NoDup (map fst (Pdf.linesMapAdd y item m))).
Proof.
  induction m as [|[k0 its] m [IHin IHnd]]; simpl.
  - split; [intros k; intuition|]. intros _. repeat constructor. auto.
  - destruct (Z.eqb_spec k0 y) as [->|Hne]; simpl.
    + split; [intros k; intuition|auto].
    + split.
      * intros k. rewrite IHin. intuition.
      * intros Hnd. inversion Hnd as [|? ? Hnotin Hnd']; subst.
        constructor; [|auto].
        rewrite IHin. intros [H|H]; [congruence|contradiction].
Qed.

Lemma buildLinesMap_NoDup (items : list Pdf.TextItem) :
  NoDup (map fst (Pdf.buildLinesMap items)).
Proof.
  unfold Pdf.buildLinesMap.
  assert (H : forall m, NoDup (map fst m) ->
            NoDup (map fst
                     (fold_left
                        (fun m item =>
                           Pdf.linesMapAdd (Pdf.round (Pdf.ty item)) item m)
                        items m))).
  { induction items as [|it items IH]; intros m Hm; simpl; [exact Hm|].
    apply IH. apply linesMapAdd_keys, Hm. }
  apply H. constructor.
Qed.

Section SortByKey.
Variable A : Type.
Variable key : A -> Z.

Let before (a b : A) : bool := Z.ltb (key b) (key a).
Let desc (a b : A) : Prop := (key b < key a)%Z.

Lemma insertSorted_In (x z : A) (l : list A) :
  In z (Pdf.insertSorted before x l) <-> z = x \/ In z l.
Proof.
  induction l as [|y l IH]; simpl; [intuition|].
  destruct (before y x); simpl; [rewrite IH|]; intuition.
Qed.

Lemma insertSorted_desc (x : A) (l : list A) :
  StronglySorted desc l -> ~ In (key x) (map key l) ->
  StronglySorted desc (Pdf.insertSorted before x l).
Proof.
  induction 1 as [|y l Hl IH Hy]; intros Hx; simpl.
  - repeat constructor.
  - simpl in Hx. unfold before at 1.
    destruct (Z.ltb_spec (key x) (key y)) as [Hlt|Hge].
    + constructor; [apply IH; intros Hin; apply Hx; right; exact Hin|].
      apply Forall_forall. intros z Hz.
      apply insertSorted_In in Hz as [->|Hz]; [exact Hlt|].
      eapply Forall_forall in Hy; eauto.
    + assert (Hxy : (key y < key x)%Z) by lia.
      constructor; [constructor; assumption|].
      constructor; [exact Hxy|].
      eapply Forall_impl; [|exact Hy]. unfold desc. intros; lia.
Qed.

Lemma stableSort_desc (l : list A) :
  NoDup (map key l) ->
  StronglySorted desc (Pdf.stableSort before l)
  /\ forall z, In z (Pdf.stableSort before l) <-> In z l.
Proof.
  induction l as [|x l IH]; simpl; intros Hnd.
  - split; [constructor|tauto].
  - inversion Hnd as [|? ? Hx Hl]; subst.
    destruct (IH Hl) as [Hs Hin]. split.
    + apply insertSorted_desc; [exact Hs|].
      intros H. apply in_map_iff in H as [z [Hk Hz]].
      apply Hin in Hz. apply Hx. rewrite <- Hk. apply in_map, Hz.
    + intros z. rewrite insertSorted_In, Hin.
      split; intros [H|H]; auto.
Qed.

End SortByKey.

Lemma round_inject_Z (k : Z) : Pdf.round (inject_Z k) = k.
Proof.
  unfold Pdf.round, Qfloor, Qplus, inject_Z. simpl.
  symmetry. apply Z.div_unique with (r := 1%Z); lia.
Qed.

Lemma lineElement_cases (entry : Z * list Pdf.TextItem) :
  Pdf.lineElement entry = []
  \/ exists text x h font,
       Pdf.lineElement entry
       = [Pdf.TextEl text x (inject_Z (fst entry)) h font]
       /\ trim text <> [].
Proof.
  destruct entry as [y items]. unfold Pdf.lineElement.
  set (text := join (str " ") _).
  destruct (trim text) eqn:E; simpl; [left; reflexivity|].
  right. do 4 eexists. split; [reflexivity|]. rewrite E. discriminate.
Qed.

(** X4. The text lines step 1 hands on are not blank, lie on pairwise
    distinct integer ordinates and come in strictly descending order of
    their ordinate, whatever the order of the items of the page. *)
Theorem textElements_ordered (items : list Pdf.TextItem) :
  StronglySorted (fun a b => (Pdf.elementY b < Pdf.elementY a)%Q)
    (Pdf.textElements items)
  /\ Forall
       (fun e =>
          match e with
          | Pdf.TextEl text _ y _ _ =>
              trim text <> [] /\ y = inject_Z (Pdf.round y)
          | Pdf.ImageEl _ _ _ _ => False
          end)
       (Pdf.textElements items).
Proof.
  unfold Pdf.textElements.
  destruct (@stableSort_desc _ (@fst Z (list Pdf.TextItem)) _
              (buildLinesMap_NoDup items)) as [Hs _].
  induction Hs as [|entry l Hl [IHs IHf] He]; simpl.
  - split; constructor.
  - destruct (lineElement_cases entry) as [->|[text [x [h [font [-> Ht]]]]]];
      simpl; [split; assumption|].
    split.
    + constructor; [exact IHs|].
      apply Forall_forall. intros e He'.
      apply in_flat_map in He' as [entry' [Hin He']].
      eapply Forall_forall in He; [|exact Hin].
      destruct (lineElement_cases entry') as [E|[t [x' [h' [f' [E _]]]]]];
        rewrite E in He'; [destruct He'|].
      destruct He' as [<-|[]]. simpl. rewrite <- Zlt_Qlt. exact He.
    + constructor; [|exact IHf]. split; [exact Ht|].
      rewrite round_inject_Z. reflexivity.
Qed.

(* ================================================================== *)
(** ** No extractor emits an empty dose                                *)
(* ================================================================== *)

Lemma Forall_snoc {A : Type} (P : A -> Prop) (l : list A) (x : A) :
  Forall P l -> P x -> Forall P (l ++ [x]).
Proof.
  intros Hl Hx. apply Forall_app. split; [exact Hl|]. constructor; auto.
Qed.

Lemma app_nonempty_r (a b : jsstring) : b <> [] -> a ++ b <> [].
Proof.
  intros Hb H. apply app_eq_nil in H as [_ H]. exact (Hb H).
Qed.

Lemma pdf_withBreadcrumb_nonempty (hp : list Pdf.PdfHeading)
  (body : jsstring) :
  body <> [] -> Pdf.withBreadcrumb hp body <> [].
Proof.
  intros Hb. unfold Pdf.withBreadcrumb.
  destruct (truthy _); [|exact Hb].
  repeat apply app_nonempty_r. exact Hb.
Qed.

Lemma finalizeBlock_nonempty (st : Pdf.BlockState) :
  Forall (fun d => d <> []) (Pdf.doses st) ->
  Forall (fun d => d <> []) (Pdf.doses (Pdf.finalizeBlock st)).
Proof.
  intros H. unfold Pdf.finalizeBlock.
  destruct (Pdf.currentBlockLines st) as [|l ls]; [exact H|]. simpl.
  destruct (Pdf.contentTextOf (l :: ls)) as [|c t] eqn:E; simpl; [exact H|].
  apply Forall_snoc; [exact H|].
  apply pdf_withBreadcrumb_nonempty. discriminate.
Qed.

Lemma elementStep_nonempty (st : Pdf.BlockState) (el : Pdf.PageElement) :
  Forall (fun d => d <> []) (Pdf.doses st) ->
  Forall (fun d => d <> []) (Pdf.doses (Pdf.elementStep st el)).
Proof.
  intros H. destruct el as [text x y h font|url y w h]; simpl.
  - destruct (Pdf.isLikelyHeading text x font
              && Pdf.isNewBlock (Pdf.lastLine st) y h); simpl.
    + apply finalizeBlock_nonempty, H.
    + destruct (Pdf.isNewBlock (Pdf.lastLine st) y h);
        [apply finalizeBlock_nonempty|]; exact H.
  - apply Forall_snoc; [apply finalizeBlock_nonempty, H|].
    apply pdf_withBreadcrumb_nonempty. discriminate.
Qed.

Lemma runElements_nonempty (els : list Pdf.PageElement)
  (st : Pdf.BlockState) :
  Forall (fun d => d <> []) (Pdf.doses st) ->
  Forall (fun d => d <> []) (Pdf.doses (Pdf.runElements els st)).
Proof.
  unfold Pdf.runElements. revert st.
  induction els as [|e es IH]; intros st H; simpl.
  - apply finalizeBlock_nonempty, H.
  - apply IH, elementStep_nonempty, H.
Qed.

(** X5. No dose of [extractTextFromPdf] is the empty string, whatever the
    pages hold. *)
Theorem pdf_doses_nonempty (canvas : Pdf.Canvas)
  (pages : list (option Pdf.Page)) :
  Forall (fun dose => dose <> [])
    (fst (Pdf.extractTextFromPdf canvas pages)).
Proof.
  unfold Pdf.extractTextFromPdf.
  assert (H : forall n acc,
            Forall (fun d => d <> []) (fst acc) ->
            Forall (fun d => d <> [])
              (fst (Pdf.pagesFrom canvas n pages acc))).
  { induction pages as [|p rest IH]; intros n [d w] Hacc;
      cbn [Pdf.pagesFrom]; [exact Hacc|].
    apply IH. destruct p as [pg|]; simpl; [|exact Hacc].
    apply runElements_nonempty. exact Hacc. }
  apply H. constructor.
Qed.

Lemma createDose_nonempty (breadcrumb content : jsstring)
  (doses : list jsstring) :
  Forall (fun d => d <> []) doses ->
  Forall (fun d => d <> []) (Docx.createDose breadcrumb content doses).
Proof.
  intros H. unfold Docx.createDose.
  destruct content as [|c t]; simpl; [exact H|].
  apply Forall_snoc; [exact H|].
  destruct (truthy breadcrumb); [|discriminate].
  repeat apply app_nonempty_r. discriminate.
Qed.

Lemma docxStep_nonempty (st : Docx.DocxState) (el : Docx.Node) :
  Forall (fun d => d <> []) (Docx.doses st) ->
  Forall (fun d => d <> []) (Docx.doses (Docx.docxStep st el)).
Proof.
  intros H. unfold Docx.docxStep.
  destruct (Docx.headingLevelOfTag _); [destruct (truthy _); exact H|].
  simpl.
  destruct (Docx.isTag "P" _); [apply createDose_nonempty, H|].
  destruct (Docx.isTag "UL" _ || Docx.isTag "OL" _).
  { destruct (Docx.keepTruthy _); [exact H|apply createDose_nonempty, H]. }
  destruct (Docx.isTag "IMG" _).
  { destruct (truthy _ && _); [apply createDose_nonempty, H|exact H]. }
  apply createDose_nonempty, H.
Qed.

(** X6. No dose of [extractTextFromDocx] is the empty string, be it a dose
    of the structured walk or a piece of the raw-text fallback. *)
Theorem docx_doses_nonempty (c : Docx.Converted) :
  Forall (fun dose => dose <> []) (fst (Docx.extractTextFromDocx c)).
Proof.
  destruct c as [messages bodyNodes|err]; simpl; [|constructor].
  assert (Hw : Forall (fun d => d <> [])
                 (Docx.doses (Docx.walk bodyNodes))).
  { unfold Docx.walk.
    assert (H : forall els st,
              Forall (fun d => d <> []) (Docx.doses st) ->
              Forall (fun d => d <> [])
                (Docx.doses (fold_left Docx.docxStep els st))).
    { induction els as [|e es IH]; intros st H; simpl; [exact H|].
      apply IH, docxStep_nonempty, H. }
    apply H. constructor. }
  destruct (Docx.doses (Docx.walk bodyNodes)) as [|d ds]; [|exact Hw].
  destruct (map Docx.message _); [|constructor].
  destruct (truthy _); [|constructor].
  destruct (Docx.rawTextDoses bodyNodes) as [|r rs] eqn:E; [constructor|].
  simpl. rewrite <- E. unfold Docx.rawTextDoses.
  apply Forall_forall. intros p Hp. apply filter_In in Hp as [_ Hp].
  intros ->. discriminate Hp.
Qed.

Lemma truthy_trim_nonempty (s : jsstring) :
  truthy (trim s) = true -> s <> [].
Proof.
  intros H ->. discriminate H.
Qed.

Lemma blockItems_nonempty (block : jsstring) :
  truthy (trim block) = true ->
  Forall (fun item => item <> []) (Structured.blockItems block).
Proof.
  intros Hb. unfold Structured.blockItems.
  destruct (forallb _ _).
  - apply Forall_forall. intros li Hli. apply filter_In in Hli as [_ Hli].
    apply truthy_trim_nonempty, Hli.
  - constructor; [apply truthy_trim_nonempty, Hb|constructor].
Qed.

Lemma processContentBlock_nonempty (st : Structured.MdState) :
  Forall (fun d => d <> []) (Structured.doses st) ->
  Forall (fun d => d <> [])
    (Structured.doses (Structured.processContentBlock st)).
Proof.
  intros H. unfold Structured.processContentBlock.
  destruct (Structured.currentContentLines st); [exact H|].
  destruct (truthy _); simpl; [|exact H].
  apply Forall_app. split; [exact H|].
  apply Forall_forall. intros d Hd.
  apply in_map_iff in Hd as [item [<- Hitem]].
  apply in_flat_map in Hitem as [block [Hblock Hitem]].
  apply filter_In in Hblock as [_ Hblock].
  pose proof (blockItems_nonempty block Hblock) as Hall.
  eapply Forall_forall in Hall; [|exact Hitem].
  unfold Structured.withBreadcrumbs. apply app_nonempty_r, Hall.
Qed.

Lemma markdownPass_nonempty (t : jsstring) :
  Forall (fun d => d <> [])
    (Structured.doses (Structured.markdownPass t)).
Proof.
  unfold Structured.markdownPass. apply processContentBlock_nonempty.
  assert (H : forall lines st,
            Forall (fun d => d <> []) (Structured.doses st) ->
            Forall (fun d => d <> [])
              (Structured.doses (fold_left Structured.mdStep lines st))).
  { induction lines as [|l ls IH]; intros st H; simpl; [exact H|].
    apply IH. unfold Structured.mdStep.
    destruct (0 <? Structured.getHeadingLevel l); simpl; [|exact H].
    apply processContentBlock_nonempty, H. }
  apply H. constructor.
Qed.

Lemma markdownCase_doses_nonempty (t : jsstring) :
  t <> [] -> Forall (fun d => d <> []) (Structured.markdownCase t).
Proof.
  intros Ht. unfold Structured.markdownCase.
  pose proof (markdownPass_nonempty t) as H.
  destruct (Structured.doses (Structured.markdownPass t)); [|exact H].
  constructor; [exact Ht|constructor].
Qed.

Lemma minimum_In (x : nat) (l : list nat) :
  In (Structured.minimum x l) (x :: l).
Proof.
  revert x. induction l as [|y l IH]; intros x; simpl; [auto|].
  destruct (Nat.min_spec x (Structured.minimum y l)) as [[_ ->]|[_ ->]].
  - auto.
  - right. apply IH.
Qed.

(** The branch starts are increasing indices of lines at the first branch
    indentation. *)
Lemma branchStartsFrom_spec (first : nat)
  (lineData : list Structured.LineData) :
  forall i,
    Forall (fun s => i <= s
                     /\ exists L, nth_error lineData (s - i) = Some L
                                  /\ Structured.indent L = first)
      (Structured.branchStartsFrom i first lineData)
    /\ StronglySorted lt (Structured.branchStartsFrom i first lineData).
Proof.
  induction lineData as [|l r IH]; intros i; simpl.
  - split; constructor.
  - destruct (IH (S i)) as [Hall Hs].
    assert (Hall' : Forall
              (fun s => i <= s
                        /\ exists L, nth_error (l :: r) (s - i) = Some L
                                     /\ Structured.indent L = first)
              (Structured.branchStartsFrom (S i) first r)).
    { eapply Forall_impl; [|exact Hall]. intros s [Hle [L [Hn Hi]]].
      split; [lia|]. exists L.
      replace (s - i) with (S (s - S i)) by lia. auto. }
    destruct (Nat.eqb_spec (Structured.indent l) first) as [E|_].
    + split.
      * constructor; [|exact Hall'].
        split; [lia|]. exists l. rewrite Nat.sub_diag. auto.
      * constructor; [exact Hs|].
        eapply Forall_impl; [|exact Hall]. intros s [Hle _]. lia.
    + split; assumption.
Qed.

Lemma join_In_nonempty (sep x : jsstring) (l : list jsstring) :
  In x l -> x <> [] -> join sep l <> [].
Proof.
  induction l as [|y l IH]; simpl; [tauto|].
  intros [->|Hin] Hx.
  - destruct l; [exact Hx|]. intros H.
    apply app_eq_nil in H as [H _]. exact (Hx H).
  - destruct l as [|z l]; [destruct Hin|].
    apply app_nonempty_r, app_nonempty_r, IH; assumption.
Qed.

Lemma slice_head {A : Type} (l : list A) (s e : nat) (a : A) :
  nth_error l s = Some a -> s < e -> In a (Structured.slice s e l).
Proof.
  intros Hn He. unfold Structured.slice.
  destruct (nth_error_split l s Hn) as [l1 [l2 [-> Hlen]]].
  rewrite skipn_app, <- Hlen, skipn_all, Nat.sub_diag. simpl.
  destruct (e - length l1) as [|k] eqn:E; [lia|]. simpl. auto.
Qed.

Lemma branchDoses_nonempty_doses (lineData : list Structured.LineData)
  (first : nat) (starts : list nat) :
  0 < first ->
  Forall (fun L => Structured.indent L
                   = Structured.getIndentation (Structured.text L))
    lineData ->
  Forall (fun s => exists L, nth_error lineData s = Some L
                             /\ Structured.indent L = first) starts ->
  StronglySorted lt starts ->
  Forall (fun d => d <> []) (Structured.branchDoses lineData starts).
Proof.
  intros Hpos Hld Hall Hs.
  induction Hs as [|s rest Hrest IH Hlt]; simpl; [constructor|].
  inversion Hall as [|? ? [L [Hn Hi]] Hall']; subst.
  constructor; [|apply IH, Hall'].
  unfold Structured.branchDose.
  apply join_In_nonempty with (x := Structured.text L).
  - apply in_or_app. right. apply in_map. apply slice_head; [exact Hn|].
    destruct rest as [|e rest'].
    + apply nth_error_Some. congruence.
    + inversion Hlt; assumption.
  - eapply Forall_forall in Hld; [|eapply nth_error_In; exact Hn].
    rewrite Hld in Hpos. unfold Structured.getIndentation in Hpos.
    intros E. rewrite E in Hpos. simpl in Hpos. lia.
Qed.

(** X7. No dose of [parseStructuredText] is the empty string. *)
Theorem parseStructuredText_doses_nonempty (text : jsstring) :
  Forall (fun dose => dose <> []) (Structured.parseStructuredText text).
Proof.
  unfold Structured.parseStructuredText.
  destruct (trim text) as [|c t] eqn:Ht; [constructor|]. simpl negb.
  cbv iota.
  assert (Hne : c :: t <> []) by discriminate.
  destruct (Structured.hasIndentation _) eqn:Hind;
    [|apply markdownCase_doses_nonempty, Hne].
  set (lineData := map Structured.mkLineData (splitLF (c :: t))).
  assert (Hld : Forall
            (fun L => Structured.indent L
                      = Structured.getIndentation (Structured.text L))
            lineData).
  { apply Forall_forall. intros L HL.
    apply in_map_iff in HL as [l [<- _]]. reflexivity. }
  destruct (map Structured.indent
              (filter (fun l => 0 <? Structured.indent l) lineData))
    as [|i others] eqn:E.
  - exfalso. unfold Structured.hasIndentation in Hind.
    apply existsb_exists in Hind as [line [Hin Hline]].
    assert (HL : In (Structured.mkLineData line)
                   (filter (fun l => 0 <? Structured.indent l) lineData)).
    { apply filter_In. split; [apply in_map, Hin|exact Hline]. }
    apply (in_map Structured.indent) in HL. rewrite E in HL. destruct HL.
  - assert (Hpos : 0 < Structured.minimum i others).
    { pose proof (minimum_In i others) as Hin. rewrite <- E in Hin.
      apply in_map_iff in Hin as [L [HL Hin]].
      apply filter_In in Hin as [_ Hin]. apply Nat.ltb_lt in Hin. lia. }
    destruct (Structured.branchStartsFrom 0 _ lineData) as [|b bs] eqn:Hb;
      [apply markdownCase_doses_nonempty, Hne|].
    rewrite <- Hb.
    destruct (branchStartsFrom_spec (Structured.minimum i others) lineData 0)
      as [Hall Hs].
    apply branchDoses_nonempty_doses
      with (first := Structured.minimum i others); auto.
    eapply Forall_impl; [|exact Hall].
    intros s [_ [L HL]]. rewrite Nat.sub_0_r in HL. eauto.
Qed.

(* ================================================================== *)
(** ** parseStructuredText: the outline and the plain-text passes      *)
(* ================================================================== *)








Lemma join_cons_char (sep : jsstring) (c : char) (l : jsstring)
  (ls : list jsstring) :
  join sep ((c :: l) :: ls) = c :: join sep (l :: ls).
Proof.
  destruct ls; reflexivity.
Qed.

(** Splitting at line feeds and joining with line feeds gives the string
    back. *)
Lemma join_splitLF (s : jsstring) : join lf (splitLF s) = s.
Proof.
  induction s as [|c r IH]; simpl; [reflexivity|].
  destruct (char_eqb c LF) eqn:E.
  - apply N.eqb_eq in E. subst c.
    destruct (splitLF r) as [|l ls] eqn:Es;
      [elim (splitLF_nonempty r Es)|].
    change (join lf ([] :: l :: ls)) with (lf ++ join lf (l :: ls)).
    rewrite IH. reflexivity.
  - destruct (splitLF r) as [|l ls] eqn:Es;
      [elim (splitLF_nonempty r Es)|].
    rewrite join_cons_char, IH. reflexivity.
Qed.

Lemma splitLF_covers (s : jsstring) (c : char) :
  In c s -> char_eqb c LF = false ->
  exists line, In line (splitLF s) /\ In c line.
Proof.
  intros Hin Hc. induction s as [|a r IH]; simpl; [destruct Hin|].
  destruct (char_eqb a LF) eqn:E.
  - destruct Hin as [->|Hin]; [congruence|].
    destruct (IH Hin) as [line [Hl Hcl]]. exists line.
    split; [right; exact Hl|exact Hcl].
  - destruct (splitLF r) as [|l ls] eqn:Es;
      [elim (splitLF_nonempty r Es)|].
    destruct Hin as [->|Hin].
    + exists (c :: l). split; left; reflexivity.
    + destruct (IH Hin) as [line [[<-|Hl] Hcl]].
      * exists (a :: l). split; [left; reflexivity|right; exact Hcl].
      * exists line. split; [right; exact Hl|exact Hcl].
Qed.

Lemma lastLF_le (ws : jsstring) (n : nat) :
  lastLF ws = Some n -> n <= length ws.
Proof.
  revert n. induction ws as [|c r IH]; simpl; intros n; [discriminate|].
  destruct (lastLF r) as [m|].
  - intros H. inversion H; subst. specialize (IH m eq_refl). lia.
  - destruct (char_eqb c LF); [|discriminate].
    intros H. inversion H; subst. lia.
Qed.

Lemma takeWhile_firstn (p : char -> bool) (s : jsstring) (n : nat) :
  n <= length (takeWhile p s) -> forallb p (firstn n s) = true.
Proof.
  revert n. induction s as [|c r IH]; intros [|n]; simpl; auto.
  destruct (p c) eqn:E; simpl; [|lia]. intros H. apply IH. lia.
Qed.

(** A match of the blank-line separator is made of white space only. *)
Lemma matchBlank_white (s : jsstring) (n : nat) :
  matchBlank s = Some n ->
  exists a r, s = a :: r /\ isWhiteSpace a = true
              /\ forallb isWhiteSpace (firstn (n - 1) r) = true.
Proof.
  destruct s as [|a r]; simpl; [discriminate|].
  destruct (char_eqb a LF) eqn:E; [|discriminate].
  destruct (lastLF (takeWhile isWhiteSpace r)) as [m|] eqn:El; [|discriminate].
  intros H. inversion H; subst. exists a, r.
  apply N.eqb_eq in E. subst a. repeat split.
  simpl. rewrite Nat.sub_0_r. apply takeWhile_firstn, lastLF_le, El.
Qed.

Lemma splitBlank_covers (c : char) :
  isWhiteSpace c = false ->
  forall (s cur : jsstring) (skip : nat),
    forallb isWhiteSpace (firstn skip s) = true ->
    In c cur \/ In c s ->
    exists piece, In piece (splitBlank_aux skip cur s) /\ In c piece.
Proof.
  intros Hc. induction s as [|a r IH]; intros cur skip Hskip Hin.
  - simpl. exists (rev cur). split; [auto|].
    apply -> in_rev. destruct Hin as [H|[]]; exact H.
  - cbn [splitBlank_aux]. destruct skip as [|k].
    + destruct (matchBlank (a :: r)) as [n|] eqn:Em.
      * destruct (matchBlank_white _ Em) as [a' [r' [Heq [Ha Hr]]]].
        inversion Heq; subst a' r'.
        destruct Hin as [Hin|[->|Hin]].
        -- exists (rev cur). split; [left; reflexivity|].
           apply -> in_rev. exact Hin.
        -- congruence.
        -- destruct (IH [] (n - 1) Hr (or_intror Hin)) as [p [Hp Hcp]].
           exists p. split; [right; exact Hp|exact Hcp].
      * apply IH; [reflexivity|].
        destruct Hin as [Hin|[->|Hin]]; simpl; auto.
    + simpl in Hskip. apply andb_true_iff in Hskip as [Ha Hr].
      apply IH; [exact Hr|].
      destruct Hin as [Hin|[->|Hin]]; [auto|congruence|auto].
Qed.

Lemma blockItems_not_nil (block : jsstring) :
  truthy (trim block) = true -> Structured.blockItems block <> [].
Proof.
  intros Hb. unfold Structured.blockItems.
  destruct (forallb _ _); [|discriminate].
  assert (Ht : trim block <> []) by (intros E; rewrite E in Hb; discriminate).
  destruct (trim_nonempty_char _ Ht) as [c [Hin Hc]].
  assert (Hlf : char_eqb c LF = false).
  { destruct (char_eqb c LF) eqn:E; [|reflexivity].
    apply N.eqb_eq in E. subst c. discriminate Hc. }
  destruct (splitLF_covers block c Hin Hlf) as [line [Hl Hcl]].
  intros Hnil.
  assert (Hf : In line (filter (fun li => truthy (trim li)) (splitLF block))).
  { apply filter_In. split; [exact Hl|].
    pose proof (trim_keeps line c Hcl Hc) as Hk.
    destruct (trim line); [destruct Hk|reflexivity]. }
  rewrite Hnil in Hf. destruct Hf.
Qed.

Lemma mdStep_plain_lines (lines : list jsstring) :
  Forall (fun l => Structured.getHeadingLevel l = 0) lines ->
  forall st,
    fold_left Structured.mdStep lines st
    = {| Structured.doses := Structured.doses st;
         Structured.headingPath := Structured.headingPath st;
         Structured.currentContentLines :=
           Structured.currentContentLines st ++ lines |}.
Proof.
  induction 1 as [|l ls Hl _ IH]; intros st; simpl.
  - rewrite app_nil_r. destruct st; reflexivity.
  - rewrite IH. unfold Structured.mdStep. rewrite Hl. simpl.
    rewrite <- app_assoc. reflexivity.
Qed.

(** X9. For an input with no indented line and no heading line, the doses
    are the non-blank blocks of the trimmed text, cut at blank lines, a
    block made of list items giving one dose per line; they carry no
    breadcrumb, and the single-dose fallback is never needed. *)
Theorem plain_text_blocks (text : jsstring) :
  let trimmedText := trim text in
  trimmedText <> [] ->
  Structured.hasIndentation (splitLF trimmedText) = false ->
  Forall (fun l => Structured.getHeadingLevel l = 0) (splitLF trimmedText) ->
  Structured.parseStructuredText text
  = flat_map Structured.blockItems
      (filter (fun b => truthy (trim b)) (splitBlank trimmedText))
  /\ Structured.parseStructuredText text <> [].
Proof.
  intros t Hne Hind Hplain. subst t.
  assert (Hitems : flat_map Structured.blockItems
                     (filter (fun b => truthy (trim b))
                        (splitBlank (trim text))) <> []).
  { destruct (trim_nonempty_char _ Hne) as [c [Hin Hc]].
    apply trim_keeps with (c := c) in Hin; [|exact Hc].
    destruct (@splitBlank_covers c Hc (trim text) [] 0 eq_refl
                (or_intror Hin)) as [piece [Hp Hcp]].
    assert (Hb : truthy (trim piece) = true).
    { pose proof (trim_keeps piece c Hcp Hc) as Hk.
      destruct (trim piece); [destruct Hk|reflexivity]. }
    pose proof (blockItems_not_nil piece Hb) as Hbi.
    intros Hnil.
    destruct (Structured.blockItems piece) as [|item items] eqn:Ei;
      [congruence|].
    assert (Hitem : In item
                      (flat_map Structured.blockItems
                         (filter (fun b => truthy (trim b))
                            (splitBlank (trim text))))).
    { apply in_flat_map. exists piece. split.
      - apply filter_In. split; [exact Hp|exact Hb].
      - rewrite Ei. left. reflexivity. }
    rewrite Hnil in Hitem. destruct Hitem. }
  assert (Hparse : Structured.parseStructuredText text
                   = flat_map Structured.blockItems
                       (filter (fun b => truthy (trim b))
                          (splitBlank (trim text)))).
  { unfold Structured.parseStructuredText.
    pose proof (trim_Trimmed text) as Htr.
    remember (trim text) as t eqn:Ht.
    destruct (truthy t) eqn:Etr; [|destruct t; [congruence|discriminate]].
    simpl negb. cbv iota. rewrite Hind.
    unfold Structured.markdownCase, Structured.markdownPass.
    rewrite (mdStep_plain_lines Hplain).
    unfold Structured.processContentBlock.
    cbn [Structured.currentContentLines Structured.doses
         Structured.headingPath Structured.mdInit app].
    remember (splitLF t) as lines eqn:El.
    destruct lines as [|l ls]; [elim (splitLF_nonempty t); auto|].
    rewrite El, join_splitLF, (Trimmed_trim Htr), Etr.
    cbn [Structured.doses app].
    rewrite (map_ext _ (fun x => x)) by reflexivity. rewrite map_id.
    destruct (flat_map _ _); [congruence|reflexivity]. }
  split; [exact Hparse|]. rewrite Hparse. exact Hitems.
Qed.

Lemma plain_text_blocks_witness :
  Structured.parseStructuredText
    (join lf [str "First paragraph,"; str "second line."; str "";
              str "- one"; str "- two"])
  = [str "First paragraph," ++ lf ++ str "second line.";
     str "- one"; str "- two"].
Proof.
  refine (eq_trans
            (proj1 (@plain_text_blocks
                      (join lf [str "First paragraph,"; str "second line.";
                                str ""; str "- one"; str "- two"])
                      _ _ _)) _).
  - vm_compute. discriminate.
  - reflexivity.
  - vm_compute. repeat constructor.
  - vm_compute. reflexivity.
Defined.

(* ================================================================== *)
(** ** The breadcrumb of a dose, read back by the review card          *)
(* ================================================================== *)

Lemma startsWith_app (pattern rest : jsstring) :
  Docx.startsWith pattern (pattern ++ rest) = true.
Proof.
  induction pattern as [|p pattern IH]; simpl; [reflexivity|].
  unfold char_eqb. rewrite N.eqb_refl. exact IH.
Qed.

Lemma startsWith_extend (pattern s rest : jsstring) :
  Docx.startsWith pattern s = true ->
  Docx.startsWith pattern (s ++ rest) = true.
Proof.
  revert s. induction pattern as [|p pattern IH]; intros s; simpl;
    [reflexivity|].
  destruct s as [|c s]; simpl; [discriminate|].
  intros H. apply andb_true_iff in H as [Hc Hs].
  rewrite Hc. simpl. apply IH, Hs.
Qed.

Lemma contains_middle (pattern before rest : jsstring) :
  Card.contains pattern (before ++ pattern ++ rest) = true.
Proof.
  induction before as [|c before IH]; simpl.
  - destruct (pattern ++ rest) eqn:E; simpl;
      rewrite <- E, startsWith_app; reflexivity.
  - rewrite IH. apply orb_true_r.
Qed.

Lemma contains_extend (pattern s rest : jsstring) :
  Card.contains pattern s = true ->
  Card.contains pattern (s ++ rest) = true.
Proof.
  induction s as [|c s IH]; simpl.
  - rewrite orb_false_r. intros H.
    destruct pattern; [|discriminate].
    destruct rest; reflexivity.
  - intros H. apply orb_true_iff in H as [H|H].
    + change (c :: s ++ rest) with ((c :: s) ++ rest).
      rewrite (startsWith_extend _ _ rest H). reflexivity.
    + rewrite (IH H). apply orb_true_r.
Qed.

Lemma takeWhile_stop (p : char -> bool) (a : jsstring) (c : char)
  (b : jsstring) :
  p c = false -> takeWhile p (a ++ c :: b) = takeWhile p a.
Proof.
  intros Hc. induction a as [|x a IH]; simpl; [rewrite Hc; reflexivity|].
  destruct (p x); [rewrite IH|]; reflexivity.
Qed.

Lemma takeWhile_all (p : char -> bool) (a : jsstring) :
  forallb p a = true -> takeWhile p a = a.
Proof.
  induction a as [|x a IH]; simpl; [reflexivity|].
  intros H. apply andb_true_iff in H as [Hx Ha].
  rewrite Hx, (IH Ha). reflexivity.
Qed.

Lemma dropWhile_stop (p : char -> bool) (a : jsstring) (c : char)
  (b : jsstring) :
  forallb p a = true -> p c = false ->
  dropWhile p (a ++ c :: b) = c :: b.
Proof.
  intros Ha Hc. induction a as [|x a IH]; simpl; [rewrite Hc; reflexivity|].
  simpl in Ha. apply andb_true_iff in Ha as [Hx Ha].
  rewrite Hx. apply IH, Ha.
Qed.

Lemma takeWhile_dropWhile (p : char -> bool) (s : jsstring) :
  s = takeWhile p s ++ dropWhile p s.
Proof.
  induction s as [|c s IH]; simpl; [reflexivity|].
  destruct (p c); simpl; [rewrite <- IH|]; reflexivity.
Qed.

(** A breadcrumb line with [" > "] and no line terminator is read back. *)
Lemma splitBreadcrumb_crumb (crumb body : jsstring) :
  forallb Card.notTerminator crumb = true ->
  Card.contains (str " > ") crumb = true ->
  Card.splitBreadcrumb (crumb ++ lf ++ lf ++ body) = (Some crumb, body).
Proof.
  intros Hlt Hc. unfold Card.splitBreadcrumb, Card.breadcrumbMatch.
  change (crumb ++ lf ++ lf ++ body) with (crumb ++ LF :: LF :: body).
  rewrite takeWhile_stop, dropWhile_stop by (exact Hlt || reflexivity).
  rewrite (takeWhile_all _ _ Hlt), Hc. reflexivity.
Qed.

Lemma join_notTerminator (sep : jsstring) (l : list jsstring) :
  forallb Card.notTerminator sep = true ->
  Forall (fun s => forallb Card.notTerminator s = true) l ->
  forallb Card.notTerminator (join sep l) = true.
Proof.
  intros Hsep. induction 1 as [|x l Hx Hl IH]; simpl; [reflexivity|].
  destruct l as [|y l]; [exact Hx|].
  rewrite !forallb_app, Hx, Hsep, IH. reflexivity.
Qed.

(** X10. A dose that the Markdown pass or the PDF extractor prefixes with
    a breadcrumb of two or more headings, none of which holds a line
    terminator, is split back by the review card into exactly that
    breadcrumb and the body. *)
Theorem breadcrumb_round_trip (body : jsstring) :
  (forall (h1 h2 : Heading) (rest : list Heading),
     Forall (fun h => forallb Card.notTerminator (htext h) = true)
       (h1 :: h2 :: rest) ->
     Card.splitBreadcrumb
       (Structured.withBreadcrumbs (h1 :: h2 :: rest) body)
     = (Some (breadcrumbOf (h1 :: h2 :: rest)), body))
  /\ (forall (h1 h2 : Pdf.PdfHeading) (rest : list Pdf.PdfHeading),
        Forall (fun h => forallb Card.notTerminator (Pdf.htext h) = true)
          (h1 :: h2 :: rest) ->
        Card.splitBreadcrumb (Pdf.withBreadcrumb (h1 :: h2 :: rest) body)
        = (Some (Pdf.breadcrumbOf (h1 :: h2 :: rest)), body)).
Proof.
  split; intros h1 h2 rest Hall.
  - unfold Structured.withBreadcrumbs. rewrite <- !app_assoc.
    apply splitBreadcrumb_crumb.
    + apply join_notTerminator; [reflexivity|].
      apply Forall_forall. intros s Hs.
      apply in_map_iff in Hs as [h [<- Hh]].
      eapply Forall_forall in Hall; eauto.
    + unfold breadcrumbOf.
      change (map htext (h1 :: h2 :: rest))
        with (htext h1 :: map htext (h2 :: rest)).
      change (join (str " > ") (htext h1 :: map htext (h2 :: rest)))
        with (htext h1 ++ str " > "
              ++ join (str " > ") (map htext (h2 :: rest))).
      apply contains_middle.
  - assert (Hc : Card.contains (str " > ")
                   (Pdf.breadcrumbOf (h1 :: h2 :: rest)) = true).
    { unfold Pdf.breadcrumbOf.
      change (join (str " > ") (map Pdf.htext (h1 :: h2 :: rest)))
        with (Pdf.htext h1 ++ str " > "
              ++ join (str " > ") (map Pdf.htext (h2 :: rest))).
      apply contains_middle. }
    unfold Pdf.withBreadcrumb.
    destruct (Pdf.breadcrumbOf (h1 :: h2 :: rest)) as [|c crumb] eqn:E;
      [discriminate Hc|].
    simpl truthy. cbv iota. apply splitBreadcrumb_crumb; [|exact Hc].
    rewrite <- E. apply join_notTerminator; [reflexivity|].
    apply Forall_forall. intros s Hs.
    apply in_map_iff in Hs as [h [<- Hh]].
    eapply Forall_forall in Hall; eauto.
Qed.

Lemma breadcrumb_round_trip_witness :
  Card.splitBreadcrumb econSupply
  = (Some (str "Econ > Supply"), str "Prices rise when supply falls.").
Proof.
  apply (proj1 (breadcrumb_round_trip (str "Prices rise when supply falls."))
           {| level := 1; htext := str "Econ" |}
           {| level := 2; htext := str "Supply" |} []).
  repeat constructor.
Defined.

(** X11. A dose prefixed with a single heading whose text has no [" > "]
    is not recognised by the review card: no breadcrumb is shown and the
    heading line stays in the displayed content. *)
Theorem single_heading_not_split (h : Heading) (body : jsstring) :
  Card.contains (str " > ") (htext h) = false ->
  Card.splitBreadcrumb (Structured.withBreadcrumbs [h] body)
  = (None, htext h ++ lf ++ lf ++ body).
Proof.
  intros Hc. unfold Structured.withBreadcrumbs, breadcrumbOf.
  cbn [map join]. rewrite <- !app_assoc.
  unfold Card.splitBreadcrumb, Card.breadcrumbMatch.
  change (htext h ++ lf ++ lf ++ body) with (htext h ++ LF :: LF :: body).
  rewrite takeWhile_stop by reflexivity.
  assert (Hline : Card.contains (str " > ")
                    (takeWhile Card.notTerminator (htext h)) = false).
  { destruct (Card.contains _ (takeWhile _ _)) eqn:E; [|reflexivity].
    apply contains_extend
      with (rest := dropWhile Card.notTerminator (htext h)) in E.
    rewrite <- takeWhile_dropWhile in E. congruence. }
  rewrite Hline.
  destruct (dropWhile _ _) as [|a [|b rest]]; try reflexivity.
  rewrite andb_false_r. reflexivity.
Qed.

Lemma single_heading_not_split_witness :
  Card.splitBreadcrumb
    (Structured.withBreadcrumbs [{| level := 1; htext := str "Econ" |}]
       (str "Scarcity."))
  = (None, str "Econ" ++ lf ++ lf ++ str "Scarcity.").
Proof.
  apply single_heading_not_split. reflexivity.
Defined.

(* ================================================================== *)
(** ** The mind-map outlines                                           *)
(* ================================================================== *)

















(* ================================================================== *)
(** ** The state handlers of the application                           *)
(* ================================================================== *)

Lemma jsstring_eqb_eq (a b : jsstring) : jsstring_eqb a b = true <-> a = b.
Proof.
  revert b. induction a as [|x a IH]; intros [|y b]; simpl;
    try (split; [discriminate|congruence]); [tauto|].
  rewrite andb_true_iff, IH. unfold char_eqb. rewrite N.eqb_eq.
  split; [intros [-> ->]; reflexivity|intros H; inversion H; auto].
Qed.

Lemma jsstring_eqb_refl (a : jsstring) : jsstring_eqb a a = true.
Proof.
  apply jsstring_eqb_eq. reflexivity.
Qed.

(** X14. [markAsCompleted] always leaves today as the last reviewed day,
    and calling it again with the same dates changes nothing; when today
    was not yet recorded the streak becomes one more than before if the
    last review was yesterday, and 1 otherwise. *)
Theorem markAsCompleted_once_a_day (today yesterdayStr : jsstring)
  (data : App.StreakData) :
  let data' := App.markAsCompleted today yesterdayStr data in
  App.lastReviewed data' = Some today
  /\ App.markAsCompleted today yesterdayStr data' = data'
  /\ (App.lastReviewed data <> Some today ->
      App.streak data'
      = if App.sameDay (App.lastReviewed data) yesterdayStr
        then App.streak data + 1 else 1).
Proof.
  intros data'. subst data'. unfold App.markAsCompleted.
  destruct (App.sameDay (App.lastReviewed data) today) eqn:Et.
  - assert (Hl : App.lastReviewed data = Some today).
    { unfold App.sameDay in Et.
      destruct (App.lastReviewed data) as [d|]; [|discriminate].
      apply jsstring_eqb_eq in Et. subst d. reflexivity. }
    rewrite Et. split; [exact Hl|]. split; [reflexivity|congruence].
  - destruct (App.sameDay (App.lastReviewed data) yesterdayStr); simpl;
      rewrite jsstring_eqb_refl; auto.
Qed.

Lemma markAsCompleted_once_a_day_witness :
  App.streak
    (App.markAsCompleted (str "2024-05-02") (str "2024-05-01")
       {| App.streak := 3; App.lastReviewed := Some (str "2024-05-01") |})
  = 4.
Proof.
  apply (markAsCompleted_once_a_day (str "2024-05-02") (str "2024-05-01")
           {| App.streak := 3;
              App.lastReviewed := Some (str "2024-05-01") |}).
  simpl. discriminate.
Defined.

Lemma existsb_contentId (i : jsstring) (q : list App.ReviewItem) :
  existsb (fun item => jsstring_eqb (App.contentId item) i) q = true
  <-> In i (map App.contentId q).
Proof.
  rewrite existsb_exists, in_map_iff. split.
  - intros [item [Hin He]]. apply jsstring_eqb_eq in He. eauto.
  - intros [item [He Hin]]. exists item. split; [exact Hin|].
    apply jsstring_eqb_eq, He.
Qed.

(** X15. Marking doses for review never puts a content twice in the review
    queue: a queue without repeated content identifiers stays so, nothing
    is ever removed, and the marked dose is in the queue afterwards. *)
Theorem markForReview_no_duplicates (todayContents : list App.TodayContent)
  (currentDoseIndex : nat) (prev : list App.ReviewItem) :
  NoDup (map App.contentId prev) ->
  let queue := App.handleMarkForReview todayContents currentDoseIndex prev in
  NoDup (map App.contentId queue)
  /\ (exists added, queue = prev ++ added)
  /\ (forall dose, nth_error todayContents currentDoseIndex = Some dose ->
        In (App.tid dose) (map App.contentId queue)).
Proof.
  intros Hnd queue. subst queue. unfold App.handleMarkForReview.
  destruct (nth_error todayContents currentDoseIndex) as [dose|].
  - destruct (existsb _ prev) eqn:E.
    + split; [exact Hnd|]. split; [exists []; symmetry; apply app_nil_r|].
      intros d Hd. inversion Hd; subst. apply existsb_contentId, E.
    + split; [|split].
      * rewrite map_app. simpl.
        assert (Hnot : ~ In (App.tid dose) (map App.contentId prev)).
        { intros H. apply existsb_contentId in H. congruence. }
        clear E. revert Hnd Hnot.
        generalize (map App.contentId prev) (App.tid dose).
        intros l i. induction l as [|x l IH]; simpl; intros Hnd Hnot.
        -- repeat constructor. auto.
        -- inversion Hnd as [|? ? Hx Hl]; subst.
           constructor; [|apply IH; tauto].
           rewrite in_app_iff. simpl. intros [H|[H|[]]]; [tauto|].
           apply Hnot. left. congruence.
      * eexists. reflexivity.
      * intros d Hd. inversion Hd; subst. rewrite map_app, in_app_iff.
        right. left. reflexivity.
  - split; [exact Hnd|]. split; [exists []; symmetry; apply app_nil_r|].
    intros d Hd. discriminate Hd.
Qed.

Lemma markForReview_no_duplicates_witness :
  NoDup
    (map App.contentId
       (App.handleMarkForReview
          [{| App.tid := str "c1"; App.ttext := str "text";
              App.tsubjectName := str "Econ"; App.tsubjectId := str "s1";
              App.ttype := App.New |}] 0
          [{| App.subjectId := str "s1"; App.contentId := str "c1" |}])).
Proof.
  apply (@markForReview_no_duplicates
           [{| App.tid := str "c1"; App.ttext := str "text";
               App.tsubjectName := str "Econ"; App.tsubjectId := str "s1";
               App.ttype := App.New |}] 0
           [{| App.subjectId := str "s1"; App.contentId := str "c1" |}]).
  simpl. repeat constructor. simpl. tauto.
Defined.

(** X16. Finishing the review removes from the queue exactly the items
    whose content was shown today as a review: the other items stay, no
    repetition is introduced, and a queue that holds none of them is
    unchanged. *)
Theorem finishReview_removes_reviewed (todayContents : list App.TodayContent)
  (prev : list App.ReviewItem) :
  let reviewed := map App.tid (filter App.isReview todayContents) in
  let queue := App.handleFinishReview todayContents prev in
  (forall item, In item queue
                <-> In item prev /\ ~ In (App.contentId item) reviewed)
  /\ (NoDup (map App.contentId prev) -> NoDup (map App.contentId queue))
  /\ (Forall (fun item => ~ In (App.contentId item) reviewed) prev ->
      queue = prev).
Proof.
  intros reviewed queue. subst queue. unfold App.handleFinishReview.
  fold reviewed.
  assert (Hkeep : forall item,
            negb (existsb (fun i => jsstring_eqb i (App.contentId item))
                    reviewed) = true
            <-> ~ In (App.contentId item) reviewed).
  { intros item. rewrite negb_true_iff. split.
    - intros Hf Hin.
      assert (Ht : existsb (fun i => jsstring_eqb i (App.contentId item))
                     reviewed = true).
      { apply existsb_exists. exists (App.contentId item).
        split; [exact Hin|apply jsstring_eqb_refl]. }
      congruence.
    - intros Hn. destruct (existsb _ reviewed) eqn:E; [|reflexivity].
      apply existsb_exists in E as [i [Hi He]].
      apply jsstring_eqb_eq in He. subst i. contradiction. }
  split; [|split].
  - intros item. rewrite filter_In, Hkeep. tauto.
  - intros Hnd. induction prev as [|a prev IH]; simpl; [constructor|].
    inversion Hnd as [|? ? Ha Hp]; subst.
    destruct (negb _); [|apply IH, Hp].
    simpl. constructor; [|apply IH, Hp].
    intros H. apply Ha. apply in_map_iff in H as [b [Hb Hin]].
    apply filter_In in Hin as [Hin _].
    rewrite <- Hb. apply in_map, Hin.
  - intros Hall. induction Hall as [|a prev Ha _ IH]; simpl; [reflexivity|].
    apply Hkeep in Ha. rewrite Ha, IH. reflexivity.
Qed.

Lemma finishReview_removes_reviewed_witness :
  App.handleFinishReview
    [{| App.tid := str "c1"; App.ttext := str "text";
        App.tsubjectName := str "Econ"; App.tsubjectId := str "s1";
        App.ttype := App.New |}]
    [{| App.subjectId := str "s1"; App.contentId := str "c1" |}]
  = [{| App.subjectId := str "s1"; App.contentId := str "c1" |}].
Proof.
  apply (proj2 (proj2
           (finishReview_removes_reviewed
              [{| App.tid := str "c1"; App.ttext := str "text";
                  App.tsubjectName := str "Econ"; App.tsubjectId := str "s1";
                  App.ttype := App.New |}]
              [{| App.subjectId := str "s1"; App.contentId := str "c1" |}]))).
  repeat constructor. simpl. tauto.
Defined.

Lemma parse_not_nil (text : jsstring) :
  trim text <> [] -> Structured.parseStructuredText text <> [].
Proof.
  intros Hne H.
  unfold Structured.parseStructuredText in H.
  destruct (trim text) as [|c t]; [congruence|]. simpl negb in H.
  cbv iota in H.
  destruct (Structured.hasIndentation (splitLF (c :: t)));
    [|exact (markdownCase_nonempty _ H)].
  destruct (map Structured.indent _) as [|i others];
    [exact (splitLF_nonempty _ H)|].
  destruct (Structured.branchStartsFrom 0 _ _) as [|b bs] eqn:Hb;
    [exact (markdownCase_nonempty _ H)|].
  revert H. apply branchDoses_nonempty. discriminate.
Qed.

Lemma newContentsFrom_texts (uuid : nat -> jsstring) (doses : list jsstring) :
  forall n, map App.ctext (App.newContentsFrom uuid n doses) = doses.
Proof.
  induction doses as [|d ds IH]; intros n; simpl; [reflexivity|].
  rewrite IH. reflexivity.
Qed.

Lemma findIndex_spec (contentId : jsstring) (l : list App.StudyContent) :
  match App.findIndex contentId l with
  | Some i =>
      (exists c, nth_error l i = Some c /\ App.cid c = contentId)
      /\ Forall (fun c => App.cid c <> contentId) (firstn i l)
  | None => Forall (fun c => App.cid c <> contentId) l
  end.
Proof.
  induction l as [|c l IH]; simpl; [constructor|].
  destruct (jsstring_eqb (App.cid c) contentId) eqn:E.
  - apply jsstring_eqb_eq in E.
    split; [exists c; split; [reflexivity|exact E]|constructor].
  - assert (Hc : App.cid c <> contentId).
    { intros H. apply jsstring_eqb_eq in H. congruence. }
    destruct (App.findIndex contentId l) as [i|].
    + destruct IH as [Hex Hall]. split; [exact Hex|].
      simpl. constructor; assumption.
    + constructor; assumption.
Qed.

(** X17. Editing a note with reprocessing replaces the first note of the
    active subject that has the identifier by one note for each dose of
    the new text, in place: the notes before and after it are kept as they
    are, the number of notes does not decrease when the new text is not
    blank, and without a note of that identifier nothing changes. *)
Theorem updateContent_reprocess (uuid : nat -> jsstring) (n : nat)
  (contentId newText : jsstring) (l : list App.StudyContent) :
  let l' := fst (App.updateContent uuid n contentId newText true l) in
  (Forall (fun c => App.cid c <> contentId) l -> l' = l)
  /\ (forall c, In c l -> App.cid c = contentId ->
        exists before after new,
          l = before ++ [new] ++ after
          /\ App.cid new = contentId
          /\ Forall (fun c => App.cid c <> contentId) before
          /\ exists added,
               l' = before ++ added ++ after
               /\ map App.ctext added
                  = Structured.parseStructuredText newText
               /\ (trim newText <> [] -> length l <= length l')).
Proof.
  intros l'. subst l'. unfold App.updateContent. simpl negb. cbv iota.
  pose proof (findIndex_spec contentId l) as Hspec.
  destruct (App.findIndex contentId l) as [i|].
  - destruct Hspec as [[c0 [Hn Hc0]] Hbefore]. split.
    + intros Hall. exfalso.
      eapply Forall_forall in Hall; [|eapply nth_error_In; exact Hn].
      contradiction.
    + intros _ _ _.
      destruct (nth_error_split l i Hn) as [l1 [l2 [Hl Hlen]]].
      assert (Hf : firstn i l = l1).
      { rewrite Hl, <- Hlen, firstn_app, Nat.sub_diag, firstn_all.
        simpl. apply app_nil_r. }
      assert (Hs : skipn (S i) l = l2).
      { rewrite Hl, <- Hlen. clear.
        induction l1 as [|a l1 IH]; [reflexivity|exact IH]. }
      exists l1, l2, c0. split; [exact Hl|]. split; [exact Hc0|].
      split; [rewrite <- Hf; exact Hbefore|].
      exists (App.newContentsFrom uuid n
                (Structured.parseStructuredText newText)).
      cbn [fst]. rewrite Hf, Hs. split; [reflexivity|].
      split; [apply newContentsFrom_texts|].
      intros Hne. pose proof (@parse_not_nil _ Hne) as Hp.
      rewrite Hl, !length_app.
      rewrite <- (newContentsFrom_texts uuid
                    (Structured.parseStructuredText newText) n) in Hp.
      destruct (App.newContentsFrom uuid n _); [elim Hp; reflexivity|].
      simpl. lia.
  - split; [reflexivity|].
    intros c Hin Hc. eapply Forall_forall in Hspec; [|exact Hin].
    contradiction.
Qed.

Lemma updateContent_reprocess_witness :
  fst (App.updateContent (fun _ => str "id") 0 (str "missing")
         (str "new text") true
         [{| App.cid := str "c1"; App.ctext := str "old" |}])
  = [{| App.cid := str "c1"; App.ctext := str "old" |}]
  /\ exists before after new,
       [{| App.cid := str "c1"; App.ctext := str "old" |};
        {| App.cid := str "c2"; App.ctext := str "other" |}]
       = before ++ [new] ++ after
       /\ App.cid new = str "c1"
       /\ Forall (fun c => App.cid c <> str "c1") before
       /\ exists added,
            fst (App.updateContent (fun _ => str "id") 0 (str "c1")
                   (str "new text") true
                   [{| App.cid := str "c1"; App.ctext := str "old" |};
                    {| App.cid := str "c2"; App.ctext := str "other" |}])
            = before ++ added ++ after
            /\ map App.ctext added
               = Structured.parseStructuredText (str "new text")
            /\ (trim (str "new text") <> [] ->
                length
                  [{| App.cid := str "c1"; App.ctext := str "old" |};
                   {| App.cid := str "c2"; App.ctext := str "other" |}]
                <= length
                     (fst (App.updateContent (fun _ => str "id") 0
                             (str "c1") (str "new text") true
                             [{| App.cid := str "c1";
                                 App.ctext := str "old" |};
                              {| App.cid := str "c2";
                                 App.ctext := str "other" |}]))).
Proof.
  split.
  - apply (proj1 (@updateContent_reprocess (fun _ => str "id") 0
                    (str "missing") (str "new text")
                    [{| App.cid := str "c1"; App.ctext := str "old" |}])).
    repeat constructor. simpl. discriminate.
  - apply (proj2 (@updateContent_reprocess (fun _ => str "id") 0
                    (str "c1") (str "new text")
                    [{| App.cid := str "c1"; App.ctext := str "old" |};
                     {| App.cid := str "c2"; App.ctext := str "other" |}])
             {| App.cid := str "c1"; App.ctext := str "old" |});
      [left; reflexivity|reflexivity].
Defined.

Lemma updateSubjects_others (uuid : nat -> jsstring)
  (activeId contentId newText : jsstring) (reprocess : bool)
  (subjects : list App.Subject) :
  forall n,
    Forall2 (fun s s' =>
               App.sid s' = App.sid s /\ App.sname s' = App.sname s
               /\ (App.sid s <> activeId -> s' = s))
      subjects
      (App.updateSubjects uuid n activeId contentId newText reprocess
         subjects).
Proof.
  induction subjects as [|s rest IH]; intros n; simpl; [constructor|].
  destruct (jsstring_eqb (App.sid s) activeId) eqn:E.
  - destruct (App.updateContent uuid n contentId newText reprocess
                (App.content s)) as [newContent n'].
    constructor; [|apply IH].
    simpl. repeat split. intros H. apply jsstring_eqb_eq in E. contradiction.
  - constructor; [|apply IH]. auto.
Qed.

(** X18. [handleUpdateContent] keeps the subjects, their order, their
    identifiers and their names, and touches the notes of no subject other
    than the active one; without an active subject it changes nothing. *)
Theorem handleUpdateContent_frame (uuid : nat -> jsstring)
  (subjects : list App.Subject) (activeSubjectId : option jsstring)
  (contentId newText : jsstring) (reprocess : bool) :
  let subjects' :=
    App.handleUpdateContent uuid subjects activeSubjectId contentId newText
      reprocess in
  Forall2 (fun s s' =>
             App.sid s' = App.sid s /\ App.sname s' = App.sname s
             /\ (Some (App.sid s) <> activeSubjectId -> s' = s))
    subjects subjects'
  /\ (App.activeSubject subjects activeSubjectId = None ->
      subjects' = subjects).
Proof.
  intros subjects'. subst subjects'. unfold App.handleUpdateContent.
  destruct (App.activeSubject subjects activeSubjectId) as [active|] eqn:Ea.
  - split; [|discriminate].
    assert (Hid : activeSubjectId = Some (App.sid active)).
    { unfold App.activeSubject in Ea.
      destruct activeSubjectId as [i|]; [|discriminate].
      apply find_some in Ea as [_ He]. apply jsstring_eqb_eq in He.
      congruence. }
    eapply Forall2_impl;
      [|apply (updateSubjects_others uuid (App.sid active) contentId
                 newText reprocess subjects 0)].
    intros s s' [H1 [H2 H3]]. repeat split; auto.
    intros Hne. apply H3. congruence.
  - split; [|reflexivity].
    induction subjects as [|s rest IH]; constructor; auto.
    apply IH. unfold App.activeSubject in *.
    destruct activeSubjectId as [i|]; [|reflexivity].
    simpl in Ea. destruct (jsstring_eqb (App.sid s) i); [discriminate|].
    exact Ea.
Qed.

Lemma handleUpdateContent_frame_witness :
  App.handleUpdateContent (fun _ => str "id")
    [{| App.sid := str "s1"; App.sname := str "Econ"; App.content := [] |}]
    None (str "c1") (str "text") true
  = [{| App.sid := str "s1"; App.sname := str "Econ"; App.content := [] |}].
Proof.
  apply (proj2 (@handleUpdateContent_frame (fun _ => str "id")
                  [{| App.sid := str "s1"; App.sname := str "Econ";
                      App.content := [] |}]
                  None (str "c1") (str "text") true)).
  reflexivity.
Defined.

(** X19. Adding a text to the active subject appends to its notes one note
    for each dose of [parseStructuredText], in order, after the notes it
    already has; the subjects, their order, identifiers and names are kept,
    no other subject is touched, and a blank text changes nothing. *)
Theorem handleAddContent_appends (uuid : nat -> jsstring)
  (subjects : list App.Subject) (activeSubjectId : option jsstring)
  (text : jsstring) :
  let subjects' :=
    App.handleAddContent uuid subjects activeSubjectId (App.AddText text) in
  Forall2 (fun s s' =>
             App.sid s' = App.sid s /\ App.sname s' = App.sname s
             /\ exists added,
                  App.content s' = App.content s ++ added
                  /\ (Some (App.sid s) <> activeSubjectId -> added = [])
                  /\ (Some (App.sid s) = activeSubjectId ->
                      map App.ctext added
                      = Structured.parseStructuredText text))
    subjects subjects'
  /\ (forallb isWhiteSpace text = true -> subjects' = subjects).
Proof.
  intros subjects'. subst subjects'. unfold App.handleAddContent.
  destruct (App.activeSubject subjects activeSubjectId) as [active|] eqn:Ea.
  - assert (Hid : activeSubjectId = Some (App.sid active)).
    { unfold App.activeSubject in Ea.
      destruct activeSubjectId as [i|]; [|discriminate].
      apply find_some in Ea as [_ He]. apply jsstring_eqb_eq in He.
      congruence. }
    pose proof (newContentsFrom_texts uuid
                  (Structured.parseStructuredText text) 0) as Htexts.
    destruct (App.newContentsFrom uuid 0
                (Structured.parseStructuredText text)) as [|c cs] eqn:En.
    + split; [|reflexivity].
      clear Ea. induction subjects as [|s rest IH]; constructor;
        [|exact IH].
      repeat split. exists []. rewrite app_nil_r. repeat split.
      intros _. exact Htexts.
    + split.
      * clear Ea. induction subjects as [|s rest IH]; simpl; constructor;
          [|exact IH].
        destruct (jsstring_eqb (App.sid s) (App.sid active)) eqn:E.
        -- simpl. repeat split. exists (c :: cs). repeat split.
           ++ intros Hn. apply jsstring_eqb_eq in E. elim Hn. congruence.
           ++ intros _. exact Htexts.
        -- repeat split. exists []. rewrite app_nil_r. repeat split.
           intros He. rewrite Hid in He. inversion He as [He'].
           rewrite He', jsstring_eqb_refl in E. discriminate.
      * intros Hb. exfalso.
        unfold Structured.parseStructuredText in Htexts.
        rewrite (trim_blank _ Hb) in Htexts. discriminate Htexts.
  - split; [|reflexivity].
    assert (Hnone : forall s, In s subjects ->
              Some (App.sid s) <> activeSubjectId).
    { intros s Hs He. unfold App.activeSubject in Ea. rewrite <- He in Ea.
      apply (find_none _ _ Ea) in Hs. rewrite jsstring_eqb_refl in Hs.
      discriminate. }
    clear Ea. induction subjects as [|s rest IH]; constructor.
    + repeat split. exists []. rewrite app_nil_r. repeat split.
      intros He. elim (Hnone s (or_introl eq_refl) He).
    + apply IH. intros s' Hs'. apply Hnone. right. exact Hs'.
Qed.

Lemma handleAddContent_appends_witness :
  App.handleAddContent (fun _ => str "id")
    [{| App.sid := str "s1"; App.sname := str "Econ"; App.content := [] |}]
    (Some (str "s1")) (App.AddText (str "  "))
  = [{| App.sid := str "s1"; App.sname := str "Econ"; App.content := [] |}].
Proof.
  apply (proj2 (@handleAddContent_appends (fun _ => str "id")
                  [{| App.sid := str "s1"; App.sname := str "Econ";
                      App.content := [] |}]
                  (Some (str "s1")) (str "  "))).
  reflexivity.
Defined.

(** X20. [extractTextFromDocx] never returns an empty result in silence:
    whenever it gives no dose it gives at least one warning, and the
    warnings of the converter always come first, followed by at most one
    warning of the adapter. *)
Theorem docx_empty_result_has_warning (messages : list Docx.Message)
  (bodyNodes : list Docx.Node) (errorMessage : jsstring) :
  let converterWarnings :=
    map Docx.message
      (filter (fun msg => jsstring_eqb (Docx.mtype msg) (str "warning"))
         messages) in
  let result := Docx.extractTextFromDocx (Docx.Html messages bodyNodes) in
  (fst result = [] -> snd result <> [])
  /\ (snd result = converterWarnings
      \/ snd result = converterWarnings ++ [Docx.noTextWarning]
      \/ snd result = converterWarnings ++ [Docx.noStructureWarning])
  /\ Docx.extractTextFromDocx (Docx.Failed errorMessage)
     = ([], [Docx.failureWarning errorMessage]).
Proof.
  intros converterWarnings result. subst result.
  unfold Docx.extractTextFromDocx. fold converterWarnings.
  split; [|split; [|reflexivity]].
  - destruct (Docx.doses (Docx.walk bodyNodes)) as [|d ds];
      [|simpl; discriminate].
    destruct converterWarnings as [|w ws]; [|simpl; discriminate].
    destruct (truthy _); [|simpl; discriminate].
    destruct (Docx.rawTextDoses bodyNodes); simpl; discriminate.
  - destruct (Docx.doses (Docx.walk bodyNodes)) as [|d ds]; [|auto].
    destruct converterWarnings as [|w ws]; [|auto].
    destruct (truthy _); [|auto].
    destruct (Docx.rawTextDoses bodyNodes); auto.
Qed.

Lemma docx_empty_result_has_warning_witness :
  snd (Docx.extractTextFromDocx (Docx.Html [] [])) <> [].
Proof.
  apply (proj1 (docx_empty_result_has_warning [] [] [])). reflexivity.
Defined.
